(** * image-analyzer: subject detection and smart cropping

    A shallow embedding of [pkg/vision/detector.go] (package [vision]), of
    the smart cropper built on it (package [cropper]), of the image
    information and validation of package [analyzer] and of the facade
    [imageanalyzer.go], followed by the properties of the natural-language
    specification, each proved or refuted on the embedding, and by further
    properties of the code.

    Conventions.
    - Go's [float64] is Rocq's primitive binary64 [float]; every arithmetic
      operation is the IEEE 754 one, in the order in which Go evaluates it
      (left to right, no fused multiply-add, as on amd64).
    - Go's [int] is [Z].  The embedding is exact as long as no [int]
      expression leaves the 64-bit range, which holds for every image whose
      dimensions and coordinates are below [2^31] in absolute value.
    - A [for v := 0; v <= limit; v += step] loop is a left fold over
      [stride_range limit step], the list of the values [v] takes.
    - A Go [map] has no iteration order: a function that ranges over one takes
      the order the runtime happens to choose as an argument. *)

From Stdlib Require Import ZArith Lia Bool Floats Uint63 String Ascii.
From stdpp Require Import base list strings gmap sorting.

#[local] Set Warnings "-inexact-float".
#[local] Open Scope Z_scope.

(* ===================================================================== *)
(** * Go's numeric conversions and the [math] functions the code calls    *)
(* ===================================================================== *)

Module GoFloat.

Abbreviation float64 := float.

(** [float64(n)] for an [int] (or [uint32]) [n]: the nearest binary64. *)
Definition float64_of_int (n : Z) : float64 :=
  if n <? 0 then PrimFloat.opp (of_uint63 (Uint63.of_Z (- n)))
  else of_uint63 (Uint63.of_Z n).

(** The integer part of a finite [spec_float], towards zero. *)
Definition SFtrunc (f : spec_float) : option Z :=
  match f with
  | S754_zero _ => Some 0
  | S754_finite s m e =>
      let v := match e with
               | Z0 => Zpos m
               | Zpos _ => Z.shiftl (Zpos m) e
               | Zneg _ => Z.shiftr (Zpos m) (- e)
               end in
      Some (if s then - v else v)
  | S754_infinity _ | S754_nan => None
  end.

(** [int(f)]: the fraction is discarded.  For a NaN, an infinity or a value
    outside the 64-bit range Go leaves the result to the implementation;
    amd64's [CVTTSD2SQ] yields the smallest [int], as here. *)
Definition int_of_float64 (f : float64) : Z :=
  match SFtrunc (Prim2SF f) with
  | Some v => if (- 2 ^ 63 <=? v) && (v <? 2 ^ 63) then v else - 2 ^ 63
  | None => - 2 ^ 63
  end.

(** [math.Max], with its special cases. *)
Definition math_Max (x y : float64) : float64 :=
  if PrimFloat.eqb x infinity || PrimFloat.eqb y infinity then infinity
  else if is_nan x || is_nan y then nan
  else if PrimFloat.eqb x 0 && PrimFloat.eqb x y then (if get_sign x then y else x)
  else if PrimFloat.ltb y x then x else y.

(** [math.Min], with its special cases. *)
Definition math_Min (x y : float64) : float64 :=
  if PrimFloat.eqb x neg_infinity || PrimFloat.eqb y neg_infinity then neg_infinity
  else if is_nan x || is_nan y then nan
  else if PrimFloat.eqb x 0 && PrimFloat.eqb x y then (if get_sign x then x else y)
  else if PrimFloat.ltb x y then x else y.

Definition math_Abs (x : float64) : float64 := PrimFloat.abs x.
Definition math_Sqrt (x : float64) : float64 := PrimFloat.sqrt x.

(** [math.Round]: to the nearest integer, halves away from zero.  The code
    never calls it; the specification's [round] is read as this function. *)
Definition math_Round_int (f : float64) : Z :=
  if PrimFloat.ltb f 0 then int_of_float64 (f - 0.5)%float
  else int_of_float64 (f + 0.5)%float.

End GoFloat.
Import GoFloat.

(* ===================================================================== *)
(** * Outcomes of a call: a value, a returned [error], or a run-time panic *)
(* ===================================================================== *)

(** The [error] values the code builds, by the format string of each. *)
Inductive error : Type :=
| InvalidImageDimensions                        (* "invalid image dimensions" *)
| FailedToFindRegion (cause : error)            (* "failed to find optimal crop region: %w" *)
| FailedToCropTo (name : string) (cause : error) (* "failed to crop to %s: %w" *)
| TargetLargerThanOriginal (targetWidth targetHeight originalWidth originalHeight : Z).
                      (* "target size (%dx%d) is larger than original (%dx%d) and ..." *)

Inductive outcome (A : Type) : Type :=
| Ok (a : A)
| Err (e : error)
| Panic (msg : string).
Arguments Ok {A} a.
Arguments Err {A} e.
Arguments Panic {A} msg.

#[global] Instance outcome_ret : MRet outcome := fun A a => Ok a.

#[global] Instance outcome_bind : MBind outcome := fun A B k o =>
  match o with
  | Ok a => k a
  | Err e => Err e
  | Panic m => Panic m
  end.

Definition is_Ok {A : Type} (o : outcome A) : bool :=
  match o with Ok _ => true | _ => false end.

(** The values of [v] in [for v := 0; v <= limit; v += step], [step > 0]. *)
Definition stride_range (limit step : Z) : list Z :=
  if limit <? 0 then [] else (fun k => k * step) <$> seqZ 0 (limit / step + 1).

(* ===================================================================== *)
(** * Package [image]: what the code uses of it                            *)
(* ===================================================================== *)

Module image.

(** The four components [color.Color.RGBA()] returns, each a [uint32]. *)
Record RGBA : Type := mkRGBA { red : Z; green : Z; blue : Z; alpha : Z }.

Record Rectangle : Type := mkRect { MinX : Z; MinY : Z; MaxX : Z; MaxY : Z }.

Definition Dx (r : Rectangle) : Z := MaxX r - MinX r.
Definition Dy (r : Rectangle) : Z := MaxY r - MinY r.

(** [image.Rect]: the rectangle with the corners put in order. *)
Definition Rect (x0 y0 x1 y1 : Z) : Rectangle :=
  let '(x0, x1) := if x1 <? x0 then (x1, x0) else (x0, x1) in
  let '(y0, y1) := if y1 <? y0 then (y1, y0) else (y0, y1) in
  mkRect x0 y0 x1 y1.

(** An [image.Image]: its bounds and its colour at each point. *)
Record Image : Type := mkImage { Bounds : Rectangle; At : Z -> Z -> RGBA }.

End image.
Import image.

(* ===================================================================== *)
(** * Package [vision] (pkg/vision/detector.go)                            *)
(* ===================================================================== *)

Module vision.

Record DetectionConfig : Type := mkDetectionConfig {
  EdgeThreshold : float64;
  ContrastWeight : float64;
  ColorWeight : float64;
  SaliencyWeight : float64;
  MinSubjectRatio : float64
}.

Record SubjectDetector : Type := mkSubjectDetector { config : DetectionConfig }.

Definition New : SubjectDetector :=
  mkSubjectDetector (mkDetectionConfig 0.01 0.3 0.2 0.5 0.05).

Definition NewWithConfig (c : DetectionConfig) : SubjectDetector :=
  mkSubjectDetector c.

Record Region : Type := mkRegion {
  X : Z; Y : Z; Width : Z; Height : Z; Score : float64
}.

Definition Center (r : Region) : Z * Z :=
  (X r + Z.quot (Width r) 2, Y r + Z.quot (Height r) 2).

Definition Area (r : Region) : Z := Width r * Height r.

(** ** calculateSaliencyMap *)

Definition neighbors : list (Z * Z) :=
  [(-1, -1); (-1, 0); (-1, 1); (0, -1); (0, 1); (1, -1); (1, 0); (1, 1)].

(** The body of the two loops: the saliency of the interior pixel (x, y). *)
Definition pixelSaliency (d : SubjectDetector) (img : Image) (x y : Z) : float64 :=
  let bounds := Bounds img in
  let c1 := At img (x + MinX bounds) (y + MinY bounds) in
  let r1 := float64_of_int (red c1) in
  let g1 := float64_of_int (green c1) in
  let b1 := float64_of_int (blue c1) in
  let edgeStrength :=
    fold_left
      (fun (edgeStrength : float64) (offset : Z * Z) =>
         let nx := x + fst offset in
         let ny := y + snd offset in
         let c2 := At img (nx + MinX bounds) (ny + MinY bounds) in
         let dr := (r1 - float64_of_int (red c2))%float in
         let dg := (g1 - float64_of_int (green c2))%float in
         let db := (b1 - float64_of_int (blue c2))%float in
         let colorDiff := math_Sqrt (dr * dr + dg * dg + db * db)%float in
         (edgeStrength + colorDiff)%float)
      neighbors 0%float in
  let edgeStrength := (edgeStrength / 524280)%float in
  let brightness := ((r1 + g1 + b1) / 196605)%float in
  (ContrastWeight (config d) * edgeStrength + ColorWeight (config d) * brightness)%float.

(** [make] panics on a negative length: of the outer slice when the height
    is negative, of the first row when the width is. *)
Definition calculateSaliencyMap (d : SubjectDetector) (img : Image)
  : outcome (list (list float64)) :=
  let width := Dx (Bounds img) in
  let height := Dy (Bounds img) in
  if height <? 0 then Panic "makeslice: len out of range"
  else if (0 <? height) && (width <? 0) then Panic "makeslice: len out of range"
  else
    Ok ((fun y =>
           (fun x =>
              if (1 <=? y) && (y <? height - 1) && (1 <=? x) && (x <? width - 1)
              then pixelSaliency d img x y
              else 0%float) <$> seqZ 0 width) <$> seqZ 0 height).

(** ** calculateRegionScore *)

Definition calculateRegionScore (saliencyMap : list (list float64))
    (x y width height : Z) : float64 :=
  let rows := seqZ y (Z.min (y + height) (Z.of_nat (length saliencyMap)) - y) in
  let cols :=
    match saliencyMap with
    | [] => []
    | row0 :: _ => seqZ x (Z.min (x + width) (Z.of_nat (length row0)) - x)
    end in
  let '(totalScore, count) :=
    fold_left
      (fun acc ry =>
         let row := nth (Z.to_nat ry) saliencyMap [] in
         fold_left
           (fun '(totalScore, count) rx =>
              ((totalScore + nth (Z.to_nat rx) row 0)%float, count + 1))
           cols acc)
      rows (0%float, 0) in
  if count =? 0 then 0%float else (totalScore / float64_of_int count)%float.

(** ** findImportantRegions *)

Definition windowSizes (width : Z) : list Z :=
  [Z.quot width 20; Z.quot width 16; Z.quot width 12; Z.quot width 8; Z.quot width 4].

Definition scanWindow (d : SubjectDetector) (saliencyMap : list (list float64))
    (windowSize y : Z) (regions : list Region) (x : Z) : list Region :=
  let score := calculateRegionScore saliencyMap x y windowSize windowSize in
  if PrimFloat.ltb (EdgeThreshold (config d)) score
  then regions ++ [mkRegion x y windowSize windowSize score]
  else regions.

Definition scanSize (d : SubjectDetector) (saliencyMap : list (list float64))
    (width height : Z) (regions : list Region) (windowSize : Z) : list Region :=
  if windowSize <? 10 then regions
  else
    fold_left
      (fun regions y =>
         fold_left (scanWindow d saliencyMap windowSize y)
           (stride_range (width - windowSize) (Z.quot windowSize 8)) regions)
      (stride_range (height - windowSize) (Z.quot windowSize 8)) regions.

Definition findImportantRegions (d : SubjectDetector)
    (saliencyMap : list (list float64)) (width height : Z) : list Region :=
  fold_left (scanSize d saliencyMap width height) (windowSizes width) [].

(** ** filterAndScoreRegions *)

(** The body of the inner sorting loop: exchange positions [i] and [j] when
    the score at [i] is the smaller one. *)
Definition exchange (i : nat) (filtered : list Region) (j : nat) : list Region :=
  match filtered !! i, filtered !! j with
  | Some ri, Some rj =>
      if PrimFloat.ltb (Score ri) (Score rj)
      then <[i := rj]> (<[j := ri]> filtered)
      else filtered
  | _, _ => filtered
  end.

Definition sortByScore (filtered : list Region) : list Region :=
  let n := length filtered in
  fold_left
    (fun filtered i => fold_left (exchange i) (seq (S i) (n - S i)) filtered)
    (seq 0 (n - 1)) filtered.

Definition minArea (d : SubjectDetector) (imageWidth imageHeight : Z) : Z :=
  let imageArea := imageWidth * imageHeight in
  int_of_float64 (float64_of_int imageArea * MinSubjectRatio (config d))%float.

Definition keepLargeRegions (d : SubjectDetector) (regions : list Region)
    (imageWidth imageHeight : Z) : list Region :=
  List.filter (fun region => minArea d imageWidth imageHeight <=? Area region) regions.

Definition filterAndScoreRegions (d : SubjectDetector) (regions : list Region)
    (imageWidth imageHeight : Z) : list Region :=
  sortByScore (keepLargeRegions d regions imageWidth imageHeight).

(** ** The ranked list before truncation, and DetectSubjects *)

Definition rankedRegions (d : SubjectDetector) (img : Image) : outcome (list Region) :=
  let width := Dx (Bounds img) in
  let height := Dy (Bounds img) in
  saliencyMap ← calculateSaliencyMap d img;
  let regions := findImportantRegions d saliencyMap width height in
  Ok (filterAndScoreRegions d regions width height).

Definition maxRegions : nat := 10.

Definition DetectSubjects (d : SubjectDetector) (img : Image) : outcome (list Region) :=
  filteredRegions ← rankedRegions d img;
  Ok (if (maxRegions <? length filteredRegions)%nat
      then take maxRegions filteredRegions
      else filteredRegions).

(** ** scorecropPosition and findOptimalCropPosition *)

Definition overlapScore (cropX cropY cropWidth cropHeight : Z)
    (score : float64) (subject : Region) : float64 :=
  let overlapX1 := int_of_float64 (math_Max (float64_of_int cropX) (float64_of_int (X subject))) in
  let overlapY1 := int_of_float64 (math_Max (float64_of_int cropY) (float64_of_int (Y subject))) in
  let overlapX2 := int_of_float64 (math_Min (float64_of_int (cropX + cropWidth))
                                            (float64_of_int (X subject + Width subject))) in
  let overlapY2 := int_of_float64 (math_Min (float64_of_int (cropY + cropHeight))
                                            (float64_of_int (Y subject + Height subject))) in
  if (overlapX1 <? overlapX2) && (overlapY1 <? overlapY2) then
    let overlapArea := (overlapX2 - overlapX1) * (overlapY2 - overlapY1) in
    let overlapRatio := (float64_of_int overlapArea / float64_of_int (Area subject))%float in
    (score + overlapRatio * Score subject)%float
  else score.

Definition scorecropPosition (subjects : list Region)
    (cropX cropY cropWidth cropHeight : Z) : float64 :=
  match subjects with
  | [] => 1%float
  | _ => fold_left (overlapScore cropX cropY cropWidth cropHeight) subjects 0%float
  end.

Definition stepSize (cropWidth cropHeight : Z) : Z :=
  let stepSize := int_of_float64 (math_Max (float64_of_int cropWidth / 20)%float
                                           (float64_of_int cropHeight / 20)%float) in
  if stepSize <? 10 then 10 else stepSize.

(** The body of the position loops; the state is [(bestScore, bestRegion)]. *)
Definition tryPosition (subjects : list Region) (cropWidth cropHeight y : Z)
    (best : float64 * Region) (x : Z) : float64 * Region :=
  let score := scorecropPosition subjects x y cropWidth cropHeight in
  if PrimFloat.ltb (fst best) score
  then (score, mkRegion x y cropWidth cropHeight score)
  else best.

Definition centeredRegion (cropWidth cropHeight imageWidth imageHeight : Z) : Region :=
  mkRegion (Z.quot (imageWidth - cropWidth) 2) (Z.quot (imageHeight - cropHeight) 2)
           cropWidth cropHeight 0.

Definition findOptimalCropPosition (subjects : list Region)
    (cropWidth cropHeight imageWidth imageHeight : Z) : Region :=
  let step := stepSize cropWidth cropHeight in
  snd (fold_left
         (fun best y =>
            fold_left (tryPosition subjects cropWidth cropHeight y)
              (stride_range (imageWidth - cropWidth) step) best)
         (stride_range (imageHeight - cropHeight) step)
         (0%float, centeredRegion cropWidth cropHeight imageWidth imageHeight)).

(** ** FindBestCropRegion *)

(** The crop-size step: [(cropWidth, cropHeight)]. *)
Definition cropDimensions (width height : Z) (targetAspectRatio : float64) : Z * Z :=
  let currentRatio := (float64_of_int width / float64_of_int height)%float in
  if PrimFloat.ltb currentRatio targetAspectRatio
  then (width, int_of_float64 (float64_of_int width / targetAspectRatio)%float)
  else (int_of_float64 (float64_of_int height * targetAspectRatio)%float, height).

Definition FindBestCropRegion (d : SubjectDetector) (img : Image)
    (targetAspectRatio : float64) : outcome Region :=
  let width := Dx (Bounds img) in
  let height := Dy (Bounds img) in
  subjects ← DetectSubjects d img;
  let '(cropWidth, cropHeight) := cropDimensions width height targetAspectRatio in
  Ok (findOptimalCropPosition subjects cropWidth cropHeight width height).

End vision.

(* ===================================================================== *)
(** * GetDominantColors (pkg/vision/detector.go)                            *)
(* ===================================================================== *)

Module colors.
Import vision.

(** A [color.RGBA] value: four [uint8] components. *)
Record color_RGBA : Type := mkColor { R : Z; G : Z; B : Z; A : Z }.

Definition uint32 (z : Z) : Z := z mod 2 ^ 32.
Definition uint8 (z : Z) : Z := z mod 2 ^ 8.

(** The histogram key of a pixel: each channel cut to its four top bits. *)
Definition colorKey (c : RGBA) : Z :=
  let r := Z.land (Z.shiftr (red c) 8) 240 in
  let g := Z.land (Z.shiftr (green c) 8) 240 in
  let b := Z.land (Z.shiftr (blue c) 8) 240 in
  Z.lor (Z.lor (uint32 (Z.shiftl r 16)) (uint32 (Z.shiftl g 8))) b.

Definition keyColor (colorKey : Z) : color_RGBA :=
  mkColor (uint8 (Z.land (Z.shiftr colorKey 16) 255))
          (uint8 (Z.land (Z.shiftr colorKey 8) 255))
          (uint8 (Z.land colorKey 255))
          255.

(** The sampled rectangle [(startX, startY, endX, endY)]. *)
Definition sampledRect (img : Image) (region : Region) : Z * Z * Z * Z :=
  let bounds := Bounds img in
  let startX := int_of_float64 (math_Max (float64_of_int (X region)) (float64_of_int (MinX bounds))) in
  let startY := int_of_float64 (math_Max (float64_of_int (Y region)) (float64_of_int (MinY bounds))) in
  let endX := int_of_float64 (math_Min (float64_of_int (X region + Width region))
                                       (float64_of_int (MaxX bounds))) in
  let endY := int_of_float64 (math_Min (float64_of_int (Y region + Height region))
                                       (float64_of_int (MaxY bounds))) in
  (startX, startY, endX, endY).

(** [colorMap[colorKey]++] *)
Definition increment (colorMap : gmap Z Z) (key : Z) : gmap Z Z :=
  <[key := default 0 (colorMap !! key) + 1]> colorMap.

Definition histogram (img : Image) (region : Region) : gmap Z Z :=
  let '(startX, startY, endX, endY) := sampledRect img region in
  fold_left
    (fun colorMap y =>
       fold_left (fun colorMap x => increment colorMap (colorKey (At img x y)))
         (seqZ startX (endX - startX)) colorMap)
    (seqZ startY (endY - startY)) ∅.

(** An order in which a [range] loop may visit the entries of a map: every
    entry once, in any order. *)
Definition iteration_order (colorMap : gmap Z Z) (entries : list (Z * Z)) : Prop :=
  entries ≡ₚ map_to_list colorMap.

(** The first [range] loop, over the entries in the order given. *)
Definition maxCount (entries : list (Z * Z)) : Z :=
  fold_left (fun maxCount entry => if maxCount <? snd entry then snd entry else maxCount)
    entries 0.

(** The second [range] loop, with its [break], over the entries in the order
    given. *)
Fixpoint emitColors (threshold : Z) (entries : list (Z * Z))
    (colors : list color_RGBA) : list color_RGBA :=
  match entries with
  | [] => colors
  | (colorKey, count) :: rest =>
      if threshold <=? count then
        let colors := colors ++ [keyColor colorKey] in
        if (5 <=? length colors)%nat then colors
        else emitColors threshold rest colors
      else emitColors threshold rest colors
  end.

(** [GetDominantColors] when the first [range] visits the histogram in the
    order [first] and the second in the order [second]. *)
Definition GetDominantColorsIn (first second : list (Z * Z)) : list color_RGBA :=
  let threshold := Z.quot (maxCount first) 4 in
  emitColors threshold second [].

(** The lists a call of [GetDominantColors] may return. *)
Definition GetDominantColors (d : SubjectDetector) (img : Image) (region : Region)
    (colors : list color_RGBA) : Prop :=
  exists first second,
    iteration_order (histogram img region) first /\
    iteration_order (histogram img region) second /\
    colors = GetDominantColorsIn first second.

End colors.

(* ===================================================================== *)
(** * Package [cropper]: the smart cropper                                  *)
(* ===================================================================== *)

Module cropper.

Record CropConfig : Type := mkCropConfig {
  PreserveAspectRatio : bool;
  AllowUpscaling : bool;
  PaddingRatio : float64;
  QualityThreshold : float64
}.

(** The receiver of the methods below.  The detector is held by pointer and
    never written through, so its value stands for it. *)
Record SmartCropper : Type := mkSmartCropper {
  detector : vision.SubjectDetector;
  config : CropConfig
}.

Record AspectRatio : Type := mkAspectRatio { Width : Z; Height : Z; Name : string }.

Definition Square := mkAspectRatio 1 1 "square".
Definition Portrait := mkAspectRatio 3 4 "portrait".
Definition Landscape := mkAspectRatio 4 3 "landscape".
Definition Widescreen := mkAspectRatio 16 9 "widescreen".
Definition Instagram := mkAspectRatio 4 5 "instagram".
Definition Story := mkAspectRatio 9 16 "story".

Definition CommonAspectRatios : list AspectRatio :=
  [Square; Portrait; Landscape; Widescreen; Instagram; Story].

Definition New : SmartCropper :=
  mkSmartCropper vision.New (mkCropConfig true false 0.1 0.7).

Definition NewWithConfig (config : CropConfig) : SmartCropper :=
  mkSmartCropper vision.New config.

(** The fields [Image], [Region] and [AspectRatio] of the Go struct. *)
Record CropResult : Type := mkCropResult {
  resultImage : Image;
  resultRegion : vision.Region;
  resultAspectRatio : float64;
  Quality : float64
}.

(** ** Methods with a pointer receiver

    A method reads the cropper it is called on and may assign to its
    fields.  Running one yields its result, the cropper as the call leaves
    it, and the values the cropper took at each assignment during the
    call, in order. *)
Definition method (A : Type) : Type :=
  SmartCropper -> A * SmartCropper * list SmartCropper.

#[global] Instance method_ret : MRet method := fun A a c => (a, c, []).

#[global] Instance method_bind : MBind method := fun A B k m c =>
  let '(a, c1, w1) := m c in
  let '(b, c2, w2) := k a c1 in
  (b, c2, w1 ++ w2).

Definition receiver : method SmartCropper := fun c => (c, c, []).

Definition assign (c' : SmartCropper) : method unit := fun _ => (tt, c', [c']).

Definition result {A : Type} (r : A * SmartCropper * list SmartCropper) : A := fst (fst r).
Definition after {A : Type} (r : A * SmartCropper * list SmartCropper) : SmartCropper :=
  snd (fst r).
Definition during {A : Type} (r : A * SmartCropper * list SmartCropper)
  : list SmartCropper := snd r.

(** [c.detector = detector] *)
Definition SetDetector (detector : vision.SubjectDetector) : method unit :=
  c ← receiver;
  assign (mkSmartCropper detector (config c)).

(** ** cropImageToRegion and the cropped view *)

Definition zeroColor : RGBA := mkRGBA 0 0 0 0.

Definition pointIn (x y : Z) (r : Rectangle) : bool :=
  (MinX r <=? x) && (x <? MaxX r) && (MinY r <=? y) && (y <? MaxY r).

(** A [*croppedImage] seen as an [image.Image]. *)
Definition croppedImage (original : Image) (bounds : Rectangle) : Image :=
  let viewBounds := Rect 0 0 (Dx bounds) (Dy bounds) in
  mkImage viewBounds
    (fun x y =>
       if pointIn x y viewBounds then At original (x + MinX bounds) (y + MinY bounds)
       else zeroColor).

Definition cropImageToRegion (img : Image) (region : vision.Region) : Image :=
  let bounds := Bounds img in
  let x1 := int_of_float64 (math_Max (float64_of_int (vision.X region))
                                     (float64_of_int (MinX bounds))) in
  let y1 := int_of_float64 (math_Max (float64_of_int (vision.Y region))
                                     (float64_of_int (MinY bounds))) in
  let x2 := int_of_float64 (math_Min (float64_of_int (vision.X region + vision.Width region))
                                     (float64_of_int (MaxX bounds))) in
  let y2 := int_of_float64 (math_Min (float64_of_int (vision.Y region + vision.Height region))
                                     (float64_of_int (MaxY bounds))) in
  croppedImage img (Rect x1 y1 x2 y2).

(** ** calculateCropQuality *)

(** The weighted sum, before it is cut to the unit interval. *)
Definition weightedQuality (img : Image) (region : vision.Region)
    (targetRatio : float64) : float64 :=
  let originalWidth := Dx (Bounds img) in
  let originalHeight := Dy (Bounds img) in
  let originalArea := originalWidth * originalHeight in
  let cropArea := vision.Width region * vision.Height region in
  let preservationRatio := (float64_of_int cropArea / float64_of_int originalArea)%float in
  let cropRatio :=
    (float64_of_int (vision.Width region) / float64_of_int (vision.Height region))%float in
  let ratioAccuracy :=
    (1 - math_Abs (cropRatio - targetRatio) / math_Max cropRatio targetRatio)%float in
  let subjectScore := vision.Score region in
  let centerX := Z.quot originalWidth 2 in
  let centerY := Z.quot originalHeight 2 in
  let cropCenterX := vision.X region + Z.quot (vision.Width region) 2 in
  let cropCenterY := vision.Y region + Z.quot (vision.Height region) 2 in
  let maxDistance :=
    math_Sqrt (float64_of_int (originalWidth * originalWidth + originalHeight * originalHeight)) in
  let distance :=
    math_Sqrt (float64_of_int ((centerX - cropCenterX) * (centerX - cropCenterX)
                               + (centerY - cropCenterY) * (centerY - cropCenterY))) in
  let centeringScore := (1 - distance / maxDistance)%float in
  (0.3 * preservationRatio + 0.3 * ratioAccuracy + 0.3 * subjectScore
   + 0.1 * centeringScore)%float.

(** The two [if] statements that end the function. *)
Definition clampQuality (quality : float64) : float64 :=
  let quality := if PrimFloat.ltb 1 quality then 1%float else quality in
  if PrimFloat.ltb quality 0 then 0%float else quality.

Definition calculateCropQuality (img : Image) (region : vision.Region)
    (targetRatio : float64) : float64 :=
  clampQuality (weightedQuality img region targetRatio).

(** ** The cropping methods *)

Definition CropToRatio (img : Image) (targetRatio : float64)
  : method (outcome CropResult) :=
  c ← receiver;
  let originalWidth := Dx (Bounds img) in
  let originalHeight := Dy (Bounds img) in
  if (originalWidth =? 0) || (originalHeight =? 0) then mret (Err InvalidImageDimensions)
  else
    mret (match vision.FindBestCropRegion (detector c) img targetRatio with
          | Ok cropRegion =>
              Ok (mkCropResult (cropImageToRegion img cropRegion) cropRegion targetRatio
                    (calculateCropQuality img cropRegion targetRatio))
          | Err e => Err (FailedToFindRegion e)
          | Panic m => Panic m
          end).

Definition CropToAspectRatio (img : Image) (aspectRatio : AspectRatio)
  : method (outcome CropResult) :=
  let targetRatio :=
    (float64_of_int (Width aspectRatio) / float64_of_int (Height aspectRatio))%float in
  CropToRatio img targetRatio.

Fixpoint cropEach (img : Image) (ratios : list AspectRatio) (results : list CropResult)
  : method (outcome (list CropResult)) :=
  match ratios with
  | [] => mret (Ok results)
  | ratio :: rest =>
      r ← CropToAspectRatio img ratio;
      match r with
      | Ok res => cropEach img rest (results ++ [res])
      | Err e => mret (Err (FailedToCropTo (Name ratio) e))
      | Panic m => mret (Panic m)
      end
  end.

Definition CropToMultipleRatios (img : Image) (ratios : list AspectRatio)
  : method (outcome (list CropResult)) :=
  cropEach img ratios [].

Definition CropToSize (img : Image) (targetWidth targetHeight : Z)
  : method (outcome CropResult) :=
  c ← receiver;
  let originalWidth := Dx (Bounds img) in
  let originalHeight := Dy (Bounds img) in
  if negb (AllowUpscaling (config c))
     && ((originalWidth <? targetWidth) || (originalHeight <? targetHeight))
  then mret (Err (TargetLargerThanOriginal targetWidth targetHeight
                    originalWidth originalHeight))
  else
    let targetRatio := (float64_of_int targetWidth / float64_of_int targetHeight)%float in
    CropToRatio img targetRatio.

Definition withPaddingRatio (c : SmartCropper) (paddingRatio : float64) : SmartCropper :=
  mkSmartCropper (detector c)
    (mkCropConfig (PreserveAspectRatio (config c)) (AllowUpscaling (config c))
       paddingRatio (QualityThreshold (config c))).

(** The deferred assignment runs when the call returns, also when
    [CropToRatio] panics. *)
Definition CropWithPadding (img : Image) (targetRatio paddingRatio : float64)
  : method (outcome CropResult) :=
  c ← receiver;
  let originalPadding := PaddingRatio (config c) in
  _ ← assign (withPaddingRatio c paddingRatio);
  r ← CropToRatio img targetRatio;
  c ← receiver;
  _ ← assign (withPaddingRatio c originalPadding);
  mret r.

Fixpoint collectCrops (img : Image) (ratios : list AspectRatio)
    (results : gmap string CropResult) : method (outcome (gmap string CropResult)) :=
  match ratios with
  | [] => mret (Ok results)
  | ratio :: rest =>
      c ← receiver;
      r ← CropToAspectRatio img ratio;
      match r with
      | Ok res =>
          if PrimFloat.leb (QualityThreshold (config c)) (Quality res)
          then collectCrops img rest (<[Name ratio := res]> results)
          else collectCrops img rest results
      | Err _ => collectCrops img rest results
      | Panic m => mret (Panic m)
      end
  end.

Definition GetOptimalCrops (img : Image) : method (outcome (gmap string CropResult)) :=
  collectCrops img CommonAspectRatios ∅.

(** ** SmartResize *)

(** A [*resizedImage] seen as an [image.Image]. *)
Definition resizedImage (original : Image) (targetWidth targetHeight : Z)
    (scaleX scaleY : float64) : Image :=
  let viewBounds := Rect 0 0 targetWidth targetHeight in
  mkImage viewBounds
    (fun x y =>
       if pointIn x y viewBounds then
         let origX := int_of_float64 (float64_of_int x * scaleX)%float in
         let origY := int_of_float64 (float64_of_int y * scaleY)%float in
         let bounds := Bounds original in
         let origX := if MaxX bounds <=? origX then MaxX bounds - 1 else origX in
         let origY := if MaxY bounds <=? origY then MaxY bounds - 1 else origY in
         At original (origX + MinX bounds) (origY + MinY bounds)
       else zeroColor).

Definition simpleResize (img : Image) (targetWidth targetHeight : Z) : Image :=
  let originalWidth := Dx (Bounds img) in
  let originalHeight := Dy (Bounds img) in
  resizedImage img targetWidth targetHeight
    (float64_of_int originalWidth / float64_of_int targetWidth)%float
    (float64_of_int originalHeight / float64_of_int targetHeight)%float.

Definition SmartResize (img : Image) (targetWidth targetHeight : Z)
  : method (outcome Image) :=
  let originalWidth := Dx (Bounds img) in
  let originalHeight := Dy (Bounds img) in
  if (originalWidth =? targetWidth) && (originalHeight =? targetHeight) then mret (Ok img)
  else
    let targetRatio := (float64_of_int targetWidth / float64_of_int targetHeight)%float in
    let originalRatio := (float64_of_int originalWidth / float64_of_int originalHeight)%float in
    if PrimFloat.ltb (math_Abs (targetRatio - originalRatio)) 0.01
    then mret (Ok (simpleResize img targetWidth targetHeight))
    else
      r ← CropToRatio img targetRatio;
      mret (match r with
            | Ok cropResult => Ok (simpleResize (resultImage cropResult) targetWidth targetHeight)
            | Err e => Err e
            | Panic m => Panic m
            end).

(** ** The calls a client can make on one cropper, and a run of them *)

Inductive call : Type :=
| CallCropToAspectRatio (img : Image) (aspectRatio : AspectRatio)
| CallCropToRatio (img : Image) (targetRatio : float64)
| CallCropToMultipleRatios (img : Image) (ratios : list AspectRatio)
| CallCropToSize (img : Image) (targetWidth targetHeight : Z)
| CallCropWithPadding (img : Image) (targetRatio paddingRatio : float64)
| CallGetOptimalCrops (img : Image)
| CallSmartResize (img : Image) (targetWidth targetHeight : Z).

(** The effect of one call on the receiver; its result is dropped. *)
Definition perform (op : call) : method unit :=
  match op with
  | CallCropToAspectRatio img a => _ ← CropToAspectRatio img a; mret tt
  | CallCropToRatio img r => _ ← CropToRatio img r; mret tt
  | CallCropToMultipleRatios img rs => _ ← CropToMultipleRatios img rs; mret tt
  | CallCropToSize img w h => _ ← CropToSize img w h; mret tt
  | CallCropWithPadding img r p => _ ← CropWithPadding img r p; mret tt
  | CallGetOptimalCrops img => _ ← GetOptimalCrops img; mret tt
  | CallSmartResize img w h => _ ← SmartResize img w h; mret tt
  end.

Fixpoint performAll (ops : list call) : method unit :=
  match ops with
  | [] => mret tt
  | op :: rest => _ ← perform op; performAll rest
  end.

End cropper.

(* ===================================================================== *)
(** * Package [analyzer]: image information and validation                 *)
(* ===================================================================== *)

Module analyzer.

Record Config : Type := mkConfig {
  DefaultQuality : Z;
  SupportedFormats : list string;
  MinImageSize : Z
}.

Record ImageAnalyzer : Type := mkImageAnalyzer { config : Config }.

Definition New : ImageAnalyzer :=
  mkImageAnalyzer (mkConfig 85 ["jpg"; "jpeg"; "png"]%string 100).

Definition NewWithConfig (config : Config) : ImageAnalyzer := mkImageAnalyzer config.

Record ImageInfo : Type := mkImageInfo {
  Width : Z;
  Height : Z;
  AspectRatio : float;
  Area : Z
}.

Definition GetImageInfo (a : ImageAnalyzer) (img : Image) : ImageInfo :=
  let bounds := Bounds img in
  let width := Dx bounds in
  let height := Dy bounds in
  mkImageInfo width height (float64_of_int width / float64_of_int height)%float
    (width * height).

(** The error of [ValidateImage], by its format string
    "image too small: %dx%d (minimum: %d)". *)
Inductive validationError : Type :=
| ImageTooSmall (width height minimum : Z).

(** [None] is the [nil] error. *)
Definition ValidateImage (a : ImageAnalyzer) (img : Image) : option validationError :=
  let bounds := Bounds img in
  if (Dx bounds <? MinImageSize (config a)) || (Dy bounds <? MinImageSize (config a))
  then Some (ImageTooSmall (Dx bounds) (Dy bounds) (MinImageSize (config a)))
  else None.

End analyzer.

(* ===================================================================== *)
(** * Package [imageanalyzer] (imageanalyzer.go): the facade               *)
(* ===================================================================== *)

Module imageanalyzer.

Record ImageAnalyzer : Type := mkImageAnalyzer {
  analyzer : analyzer.ImageAnalyzer;
  detector : vision.SubjectDetector;
  cropper : cropper.SmartCropper
}.

Definition New : ImageAnalyzer :=
  mkImageAnalyzer analyzer.New vision.New cropper.New.

(** The cropper is given the detector built from [visionConfig]. *)
Definition NewWithConfig (analyzerConfig : analyzer.Config)
    (visionConfig : vision.DetectionConfig) (cropperConfig : cropper.CropConfig)
  : ImageAnalyzer :=
  let detector := vision.NewWithConfig visionConfig in
  let smartCropper := cropper.NewWithConfig cropperConfig in
  let smartCropper := cropper.after (cropper.SetDetector detector smartCropper) in
  mkImageAnalyzer (analyzer.NewWithConfig analyzerConfig) detector smartCropper.

Record AnalysisResult : Type := mkAnalysisResult {
  Info : analyzer.ImageInfo;
  Subjects : list vision.Region;
  Crops : gmap string cropper.CropResult
}.

(** The errors [AnalyzeImage] wraps, by the format string of each. *)
Inductive analysisError : Type :=
| SubjectDetectionFailed (cause : error)  (* "subject detection failed: %w" *)
| CropAnalysisFailed (cause : error).     (* "crop analysis failed: %w" *)

Inductive analysis (A : Type) : Type :=
| Analysed (a : A)
| Failed (e : analysisError)
| Panicked (msg : string).
Arguments Analysed {A} a.
Arguments Failed {A} e.
Arguments Panicked {A} msg.

Definition withCropper (ia : ImageAnalyzer) (c : cropper.SmartCropper) : ImageAnalyzer :=
  mkImageAnalyzer (analyzer ia) (detector ia) c.

(** The result, and the analyzer as the call leaves it (its cropper is held
    by pointer and called). *)
Definition AnalyzeImage (ia : ImageAnalyzer) (img : Image)
  : analysis AnalysisResult * ImageAnalyzer :=
  let info := analyzer.GetImageInfo (analyzer ia) img in
  match vision.DetectSubjects (detector ia) img with
  | Err e => (Failed (SubjectDetectionFailed e), ia)
  | Panic m => (Panicked m, ia)
  | Ok subjects =>
      let run := cropper.GetOptimalCrops img (cropper ia) in
      let ia' := withCropper ia (cropper.after run) in
      match cropper.result run with
      | Err e => (Failed (CropAnalysisFailed e), ia')
      | Panic m => (Panicked m, ia')
      | Ok crops => (Analysed (mkAnalysisResult info subjects crops), ia')
      end
  end.

(** ** getBaseName *)

(** Where [for i := len(s) - 1; i >= 0; i--] first finds a byte with [p]. *)
Definition lastIndexWhere (p : ascii -> bool) (s : list ascii) : option nat :=
  List.find (fun i => match s !! i with Some b => p b | None => false end)
    (reverse (seq 0 (length s))).

Definition isSeparator (b : ascii) : bool := Ascii.eqb b "/" || Ascii.eqb b "092".
Definition isDot (b : ascii) : bool := Ascii.eqb b ".".

(** A Go string is its bytes. *)
Definition getBaseName (filepath : list ascii) : list ascii :=
  let base := filepath in
  let base := match lastIndexWhere isSeparator base with
              | Some i => drop (S i) base
              | None => base
              end in
  match lastIndexWhere isDot base with
  | Some i => take i base
  | None => base
  end.

End imageanalyzer.

(* ===================================================================== *)
(** * The specification's own words, where they differ from the code       *)
(* ===================================================================== *)

Module Spec.
Import vision.

(** "Sort survivors by score, descending; ties preserve the relative order
    in which regions were produced": insertion into a ranked list, each
    region behind every region that is not below it. *)
Fixpoint insertByScore (r : Region) (ranked : list Region) : list Region :=
  match ranked with
  | [] => [r]
  | s :: rest =>
      if PrimFloat.ltb (Score s) (Score r) then r :: s :: rest
      else s :: insertByScore r rest
  end.

Definition stableSortByScore (regions : list Region) : list Region :=
  fold_left (fun ranked r => insertByScore r ranked) regions [].

(** "[minArea = round(imageArea * minSubjectRatio)]" *)
Definition roundedMinArea (d : SubjectDetector) (imageWidth imageHeight : Z) : Z :=
  math_Round_int (float64_of_int (imageWidth * imageHeight) * MinSubjectRatio (config d))%float.


End Spec.

(* ===================================================================== *)
(** * The order of the floats                                              *)
(* ===================================================================== *)

Module FloatOrder.

(** A float that is a number: not a NaN. *)
Definition number (x : float) : Prop := is_nan x = false.

Lemma SFeqb_refl_nan x : SFeqb x x = false <-> x = S754_nan.
Proof.
  unfold SFeqb. destruct x as [s|s| |s m e]; simpl; split; try congruence.
  - destruct s; discriminate.
  - destruct s; rewrite Z.compare_refl, ?Pos.compare_cont_refl; simpl; discriminate.
Qed.

Lemma number_Prim2SF x : number x <-> Prim2SF x <> S754_nan.
Proof.
  unfold number, is_nan. rewrite FloatAxioms.eqb_spec, negb_false_iff.
  rewrite <- SFeqb_refl_nan. destruct (SFeqb _ _); split; congruence.
Qed.

(** The place of a number in the order of the floats: its class (the
    infinities outermost, the zeros in the middle), then exponent and
    mantissa, negated for the negative ones. *)
Definition key (x : spec_float) : Z * Z * Z :=
  match x with
  | S754_zero _ => (0, 0, 0)
  | S754_infinity s => (if s then -2 else 2, 0, 0)
  | S754_nan => (3, 0, 0)
  | S754_finite s m e => if s then (-1, - e, Zneg m) else (1, e, Zpos m)
  end.

Definition lexlt (k k' : Z * Z * Z) : Prop :=
  let '(a, b, c) := k in
  let '(a', b', c') := k' in
  a < a' \/ (a = a' /\ (b < b' \/ (b = b' /\ c < c'))).

Lemma SFcompare_key x y :
  x <> S754_nan -> y <> S754_nan ->
  exists c, SFcompare x y = Some c /\
    match c with
    | Lt => lexlt (key x) (key y)
    | Eq => key x = key y
    | Gt => lexlt (key y) (key x)
    end.
Proof.
  intros Hx Hy.
  destruct x as [sx|sx| |sx mx ex], y as [sy|sy| |sy my ey]; try congruence;
    simpl; try change (Pos.compare_cont Eq mx my) with (mx ?= my)%positive;
    repeat match goal with
           | s : bool |- _ => destruct s
           end;
    try destruct (Z.compare_spec ex ey);
    try destruct (Pos.compare_spec mx my); subst;
    eexists; (split; [reflexivity | simpl; first [reflexivity | lia]]).
Qed.

Lemma ltb_lexlt x y :
  number x -> number y ->
  (PrimFloat.ltb x y = true <-> lexlt (key (Prim2SF x)) (key (Prim2SF y))).
Proof.
  rewrite !number_Prim2SF, FloatAxioms.ltb_spec. intros Hx Hy. unfold SFltb.
  destruct (SFcompare_key _ _ Hx Hy) as (c & -> & Hc).
  destruct (key (Prim2SF x)) as [[a b] c1], (key (Prim2SF y)) as [[a' b'] c1'].
  destruct c; simpl in *; split; intros; try congruence; try lia.
  injection Hc; lia.
Qed.

Lemma leb_lexlt x y :
  number x -> number y ->
  (PrimFloat.leb x y = true <-> ~ lexlt (key (Prim2SF y)) (key (Prim2SF x))).
Proof.
  rewrite !number_Prim2SF, FloatAxioms.leb_spec. intros Hx Hy. unfold SFleb.
  destruct (SFcompare_key _ _ Hx Hy) as (c & -> & Hc).
  destruct (key (Prim2SF x)) as [[a b] c1], (key (Prim2SF y)) as [[a' b'] c1'].
  destruct c; simpl in *; split; intros; try congruence; try lia.
  injection Hc; lia.
Qed.

Lemma ltb_number x y : PrimFloat.ltb x y = true -> number x /\ number y.
Proof.
  rewrite FloatAxioms.ltb_spec, !number_Prim2SF. unfold SFltb.
  destruct (Prim2SF x), (Prim2SF y); simpl; try discriminate; split; congruence.
Qed.

Lemma leb_number x y : PrimFloat.leb x y = true -> number x /\ number y.
Proof.
  rewrite FloatAxioms.leb_spec, !number_Prim2SF. unfold SFleb.
  destruct (Prim2SF x), (Prim2SF y); simpl; try discriminate; split; congruence.
Qed.


Lemma leb_ltb_false x y : PrimFloat.leb y x = true -> PrimFloat.ltb x y = false.
Proof.
  intros H. destruct (leb_number _ _ H) as [Hy Hx].
  apply (leb_lexlt y x Hy Hx) in H.
  destruct (PrimFloat.ltb x y) eqn:E; trivial.
  apply (ltb_lexlt x y Hx Hy) in E. contradiction.
Qed.

Lemma ltb_leb x y : PrimFloat.ltb x y = true -> PrimFloat.leb x y = true.
Proof.
  intros H. destruct (ltb_number _ _ H) as [Hx Hy].
  apply (ltb_lexlt x y Hx Hy) in H. apply leb_lexlt; trivial.
  destruct (key (Prim2SF x)) as [[a b] c1], (key (Prim2SF y)) as [[a' b'] c1'].
  simpl in *; lia.
Qed.

Lemma leb_ltb_trans x y z :
  PrimFloat.leb x y = true -> PrimFloat.ltb y z = true -> PrimFloat.ltb x z = true.
Proof.
  intros H1 H2. destruct (leb_number _ _ H1) as [Hx Hy].
  destruct (ltb_number _ _ H2) as [_ Hz].
  apply (leb_lexlt x y Hx Hy) in H1. apply (ltb_lexlt y z Hy Hz) in H2.
  apply ltb_lexlt; trivial.
  destruct (key (Prim2SF x)) as [[a b] c1], (key (Prim2SF y)) as [[a' b'] c1'],
    (key (Prim2SF z)) as [[a'' b''] c1''].
  simpl in *; lia.
Qed.

Lemma ltb_asym x y : PrimFloat.ltb x y = true -> PrimFloat.ltb y x = false.
Proof. intros H. apply leb_ltb_false, ltb_leb, H. Qed.

(** [x >= y] and [y >= z] give [x >= z], as failed comparisons. *)
Lemma ltb_false_trans x y z :
  number y ->
  PrimFloat.ltb x y = false -> PrimFloat.ltb y z = false -> PrimFloat.ltb x z = false.
Proof.
  intros Hy H1 H2. destruct (PrimFloat.ltb x z) eqn:E; trivial.
  destruct (ltb_number _ _ E) as [Hx Hz].
  apply (ltb_lexlt x z Hx Hz) in E.
  assert (G1 : ~ lexlt (key (Prim2SF x)) (key (Prim2SF y))).
  { intros G. apply (ltb_lexlt x y Hx Hy) in G. congruence. }
  assert (G2 : ~ lexlt (key (Prim2SF y)) (key (Prim2SF z))).
  { intros G. apply (ltb_lexlt y z Hy Hz) in G. congruence. }
  destruct (key (Prim2SF x)) as [[a b] c1], (key (Prim2SF y)) as [[a' b'] c1'],
    (key (Prim2SF z)) as [[a'' b''] c1''].
  simpl in *; lia.
Qed.

(** [x < y] and [z <= x]... the larger of two beats what the smaller beat. *)
Lemma ltb_true_false_trans x y z :
  PrimFloat.ltb x y = true -> PrimFloat.ltb x z = false -> number z ->
  PrimFloat.ltb y z = false.
Proof.
  intros H1 H2 Hz. destruct (ltb_number _ _ H1) as [Hx Hy].
  destruct (PrimFloat.ltb y z) eqn:E; trivial.
  apply (ltb_lexlt x y Hx Hy) in H1. apply (ltb_lexlt y z Hy Hz) in E.
  assert (G : ~ lexlt (key (Prim2SF x)) (key (Prim2SF z))).
  { intros G. apply (ltb_lexlt x z Hx Hz) in G. congruence. }
  destruct (key (Prim2SF x)) as [[a b] c1], (key (Prim2SF y)) as [[a' b'] c1'],
    (key (Prim2SF z)) as [[a'' b''] c1''].
  simpl in *; lia.
Qed.

End FloatOrder.

Import FloatOrder.
Import vision.

(* ===================================================================== *)
(** * The exchange sort of filterAndScoreRegions                           *)
(* ===================================================================== *)

Section ExchangeSort.

(** [a] is not below [b]: the comparison the sort makes fails. *)
Definition notBelow (a b : Region) : Prop := PrimFloat.ltb (Score a) (Score b) = false.

Definition scored (r : Region) : Prop := number (Score r).

Lemma exchange_pass (pre done todo : list Region) (x : Region) :
  Forall scored (x :: done ++ todo) ->
  Forall (notBelow x) done ->
  exists m rest,
    fold_left (exchange (length pre))
      (seq (S (length pre + length done)) (length todo))
      (pre ++ x :: done ++ todo) = pre ++ m :: rest
    /\ m :: rest ≡ₚ x :: done ++ todo
    /\ Forall (notBelow m) rest.
Proof.
  revert x done. induction todo as [|y ys IH]; intros x done Hs Hd.
  - exists x, done. simpl. rewrite app_nil_r. auto.
  - cbn [length seq fold_left].
    assert (Hi : (pre ++ x :: done ++ y :: ys) !! length pre = Some x).
    { by rewrite list_lookup_middle. }
    assert (Hj : (pre ++ x :: done ++ y :: ys) !! S (length pre + length done) = Some y).
    { rewrite lookup_app_r by lia.
      replace (S (length pre + length done) - length pre)%nat with (S (length done)) by lia.
      simpl. by rewrite list_lookup_middle. }
    unfold exchange at 2. rewrite Hi, Hj.
    apply Forall_cons in Hs as [Hx Hs].
    apply Forall_app in Hs as [Hsd Hs]. apply Forall_cons in Hs as [Hy Hs].
    destruct (PrimFloat.ltb (Score x) (Score y)) eqn:E.
    + replace (<[length pre:=y]> (<[S (length pre + length done):=x]> (pre ++ x :: done ++ y :: ys)))
        with (pre ++ y :: (done ++ [x]) ++ ys).
      2:{ rewrite (insert_app_r_alt pre) by lia.
          replace (S (length pre + length done) - length pre)%nat with (S (length done)) by lia.
          cbn [insert list_insert]. 
          change (list_insert (length done) x (done ++ y :: ys)) with (<[length done:=x]> (done ++ y :: ys)).
          rewrite (insert_app_r_alt done) by lia. rewrite Nat.sub_diag. simpl.
          change (list_insert (length pre) y (pre ++ x :: done ++ x :: ys))
            with (<[length pre:=y]> (pre ++ x :: done ++ x :: ys)).
          rewrite (insert_app_r_alt pre) by lia. rewrite Nat.sub_diag. simpl.
          by rewrite <- app_assoc. }
      destruct (IH y (done ++ [x])) as (m & rest & Hf & Hp & Hm).
      * apply Forall_cons; split; [done|]. rewrite <- app_assoc. simpl.
        apply Forall_app; split; [done|]. by apply Forall_cons.
      * apply Forall_app; split.
        -- rewrite Forall_forall in Hd, Hsd |- *. intros z Hz.
           eapply ltb_true_false_trans; [exact E | by apply Hd | by apply Hsd].
        -- apply Forall_singleton. by apply ltb_asym.
      * exists m, rest. split; [|split; [|done]].
        -- rewrite <- Hf. rewrite length_app. simpl.
           by replace (S (length pre + (length done + 1))) with (S (S (length pre + length done))) by lia.
        -- rewrite Hp. rewrite <- app_assoc. simpl.
           rewrite <- (Permutation_middle done ys x).
           rewrite <- (Permutation_middle done ys y). apply perm_swap.
    + destruct (IH x (done ++ [y])) as (m & rest & Hf & Hp & Hm).
      * apply Forall_cons; split; [done|]. rewrite <- app_assoc. simpl.
        apply Forall_app; split; [done|]. by apply Forall_cons.
      * apply Forall_app; split; [done|]. by apply Forall_singleton.
      * exists m, rest. split; [|split; [|done]].
        -- rewrite <- Hf. rewrite length_app. simpl. rewrite <- app_assoc. simpl.
           by replace (S (length pre + (length done + 1))) with (S (S (length pre + length done))) by lia.
        -- rewrite Hp. by rewrite <- app_assoc.
Qed.

(** The outer loop from index [i] on, [k] rounds, on a slice of [n] entries. *)
Definition passes (n i k : nat) (l : list Region) : list Region :=
  fold_left
    (fun filtered i => fold_left (exchange i) (seq (S i) (n - S i)) filtered)
    (seq i k) l.

Lemma passes_S n i k l :
  passes n i (S k) l = passes n (S i) k (fold_left (exchange i) (seq (S i) (n - S i)) l).
Proof. reflexivity. Qed.

Lemma sort_passes (k : nat) : forall (pre rest : list Region),
  length rest = S k ->
  Forall scored (pre ++ rest) ->
  StronglySorted notBelow pre ->
  (forall a b, a ∈ pre -> b ∈ rest -> notBelow a b) ->
  let l := passes (length pre + length rest) (length pre) k (pre ++ rest) in
  StronglySorted notBelow l /\ l ≡ₚ pre ++ rest.
Proof.
  induction k as [|k IH]; intros pre rest Hn Hs Hpre Hle.
  - destruct rest as [|x [|? ?]]; try done. simpl. split; [|done].
    apply StronglySorted_app. split; [|split; [done|]].
    + intros a b Ha Hb. by apply Hle.
    + repeat constructor.
  - destruct rest as [|x rest]; [done|]. 
    injection Hn as Hn. intros l. subst l. rewrite passes_S.
    replace (length pre + length (x :: rest) - S (length pre))%nat with (length rest)
      by (simpl; lia).
    destruct (exchange_pass pre [] rest x) as (m & rest' & Hf & Hp & Hm).
    { apply Forall_app in Hs as [_ Hs]. done. }
    { constructor. }
    change (fold_left (exchange (length pre)) (seq (S (length pre + 0)) (length rest))
              (pre ++ x :: rest) = pre ++ m :: rest') in Hf.
    rewrite Nat.add_0_r in Hf. rewrite Hf.
    assert (Hlen : length rest' = length rest).
    { apply Permutation_length in Hp. simpl in Hp. lia. }
    destruct (IH (pre ++ [m]) rest') as [IH1 IH2].
    + lia.
    + rewrite <- app_assoc. simpl.
      apply Forall_app in Hs as [Hs1 Hs2]. apply Forall_app; split; [done|].
      by rewrite Hp.
    + apply StronglySorted_app. split; [|split; [done|repeat constructor]].
      intros a b Ha Hb. apply list_elem_of_singleton in Hb as ->.
      apply Hle; [done|]. rewrite <- Hp. by left.
    + intros a b Ha Hb. apply elem_of_app in Ha as [Ha|Ha].
      * apply Hle; [done|]. rewrite <- Hp. by right.
      * apply list_elem_of_singleton in Ha as ->.
        rewrite Forall_forall in Hm. by apply Hm.
    + rewrite <- app_assoc in IH1, IH2. simpl in IH1, IH2.
      rewrite length_app in IH1, IH2. simpl in IH1, IH2.
      replace (length pre + 1 + length rest')%nat
        with (length pre + S (length rest))%nat in IH1, IH2 by lia.
      replace (length pre + 1)%nat with (S (length pre)) in IH1, IH2 by lia.
      simpl. split; [done|]. rewrite IH2. by rewrite Hp.
Qed.

Lemma sortByScore_passes l : sortByScore l = passes (length l) 0 (length l - 1) l.
Proof. reflexivity. Qed.

Lemma sortByScore_sorted (l : list Region) :
  Forall scored l ->
  StronglySorted notBelow (sortByScore l) /\ sortByScore l ≡ₚ l.
Proof.
  intros Hs. rewrite sortByScore_passes. destruct l as [|x l]; [by split; constructor|].
  simpl. rewrite Nat.sub_0_r.
  apply (sort_passes (length l) [] (x :: l)); try done.
  - constructor.
  - intros a b Ha. by apply elem_of_nil in Ha.
Qed.

End ExchangeSort.

(** The sort only moves entries: no score need be a number for that. *)
Lemma exchange_perm (i j : nat) (l : list Region) : exchange i l j ≡ₚ l.
Proof.
  unfold exchange.
  destruct (l !! i) as [ri|] eqn:Hi; [|done].
  destruct (l !! j) as [rj|] eqn:Hj; [|done].
  destruct (PrimFloat.ltb _ _); [|done].
  by apply Permutation_insert_swap.
Qed.

Lemma sortByScore_perm (l : list Region) : sortByScore l ≡ₚ l.
Proof.
  unfold sortByScore. generalize (length l). intros n.
  generalize (seq 0 (n - 1)). intros rounds. revert l.
  induction rounds as [|i rounds IH]; intros l; [done|].
  simpl. rewrite IH. generalize (seq (S i) (n - S i)). intros js.
  revert l. induction js as [|j js IHj]; intros l; [done|].
  simpl. rewrite IHj. apply exchange_perm.
Qed.

(* ===================================================================== *)
(** * Exact conversions between [int] and [float64]                       *)
(* ===================================================================== *)

(** An [int] below [2^53] in absolute value is a [float64]: the conversions
    of the code, [float64(n)] and [int(f)], and [math.Max] and [math.Min] on
    converted integers lose nothing. *)

Lemma digits2_pos_size p : digits2_pos p = Pos.size p.
Proof. induction p; simpl; congruence. Qed.

Lemma digits2_pos_bounds p :
  2 ^ (Zpos (digits2_pos p) - 1) <= Zpos p < 2 ^ Zpos (digits2_pos p).
Proof.
  rewrite digits2_pos_size. split.
  - pose proof (Pos.size_le p) as H.
    assert (H' : 2 ^ Zpos (Pos.size p) <= 2 * Zpos p).
    { change (2 * Zpos p) with (Zpos p~0). rewrite <- Pos2Z.inj_pow. by apply Pos2Z.pos_le_pos. }
    replace (Zpos (Pos.size p)) with (Z.succ (Zpos (Pos.size p) - 1)) in H' by lia.
    rewrite Z.pow_succ_r in H' by lia. lia.
  - pose proof (Pos.size_gt p) as H. rewrite <- Pos2Z.inj_pow. by apply Pos2Z.pos_lt_pos.
Qed.

Lemma iter_xO_val p k : Zpos (Pos.iter xO p k) = Zpos p * 2 ^ Zpos k.
Proof.
  induction k using Pos.peano_ind.
  - simpl. lia.
  - rewrite Pos.iter_succ, Pos2Z.inj_succ, Z.pow_succ_r by lia.
    rewrite Pos2Z.inj_xO, IHk. lia.
Qed.

Lemma digits2_pos_iter_xO p k :
  Zpos (digits2_pos (Pos.iter xO p k)) = Zpos (digits2_pos p) + Zpos k.
Proof.
  induction k using Pos.peano_ind.
  - simpl. lia.
  - rewrite Pos.iter_succ. simpl. rewrite Pos2Z.inj_succ, IHk. lia.
Qed.

(** A mantissa already in canonical position is left alone by the rounding. *)
Lemma binary_round_aux_canonical s m e :
  canonical_mantissa prec emax m e = true -> e <= emax - prec ->
  binary_round_aux prec emax s (Zpos m) e loc_Exact = S754_finite s m e.
Proof.
  intros Hc He. unfold canonical_mantissa in Hc. apply Z.eqb_eq in Hc.
  unfold binary_round_aux, shr_fexp. simpl Zdigits2. rewrite Hc, Z.sub_diag.
  simpl. rewrite Hc, Z.sub_diag. simpl.
  by rewrite (proj2 (Z.leb_le _ _) He).
Qed.

(** The binary64 number that stands for the integer with mantissa [p]:
    [p] shifted up to 53 bits. *)
Definition SFofpos (s : bool) (p : positive) : spec_float :=
  match 53 - Zpos (digits2_pos p) with
  | Zpos k => S754_finite s (Pos.iter xO p k) (- Zpos k)
  | _ => S754_finite s p 0
  end.

Definition SFofZ (n : Z) : spec_float :=
  match n with
  | Z0 => S754_zero false
  | Zpos p => SFofpos false p
  | Zneg p => SFofpos true p
  end.

Lemma binary_round_int s p :
  Zpos p < 2 ^ 53 -> binary_round prec emax s p 0 = SFofpos s p.
Proof.
  intros Hp. pose proof (digits2_pos_bounds p) as [Hd _].
  assert (Hd53 : Zpos (digits2_pos p) <= 53).
  { destruct (Z_le_gt_dec (Zpos (digits2_pos p)) 53) as [|Hgt]; [done|].
    assert (2 ^ 53 <= 2 ^ (Zpos (digits2_pos p) - 1)) by (apply Z.pow_le_mono_r; lia). lia. }
  unfold binary_round, SFofpos, shl_align, fexp, FloatOps.emin, SpecFloat.emin.
  change prec with 53. change emax with 1024.
  rewrite Z.add_0_r, Z.max_l by lia. rewrite Z.sub_0_r.
  destruct (53 - Zpos (digits2_pos p)) as [|k|k] eqn:Ek; try lia.
  - replace (Zpos (digits2_pos p) - 53) with 0 by lia.
    apply binary_round_aux_canonical; [|done].
    unfold canonical_mantissa, fexp, SpecFloat.emin. apply Z.eqb_eq.
    change prec with 53. change emax with 1024. lia.
  - replace (Zpos (digits2_pos p) - 53) with (Zneg k) by lia.
    apply binary_round_aux_canonical; [|done].
    unfold canonical_mantissa, fexp, SpecFloat.emin. apply Z.eqb_eq.
    change prec with 53. change emax with 1024. rewrite digits2_pos_iter_xO. lia.
Qed.

Lemma Prim2SF_float64_of_int n :
  - 2 ^ 53 < n < 2 ^ 53 -> Prim2SF (float64_of_int n) = SFofZ n.
Proof.
  intros Hn. unfold float64_of_int.
  assert (Hto : forall m, 0 <= m < 2 ^ 53 -> Uint63.to_Z (Uint63.of_Z m) = m).
  { intros m Hm. rewrite Uint63.of_Z_spec. apply Z.mod_small.
    change wB with (2 ^ 63). assert (2 ^ 53 < 2 ^ 63) by done. lia. }
  destruct (n <? 0) eqn:E.
  - apply Z.ltb_lt in E. rewrite FloatAxioms.opp_spec, FloatAxioms.of_uint63_spec, Hto by lia.
    destruct n as [|p|p]; try lia. simpl Z.opp. simpl binary_normalize.
    rewrite binary_round_int by lia. unfold SFofZ, SFofpos.
    by destruct (53 - Zpos (digits2_pos p)).
  - apply Z.ltb_ge in E. rewrite FloatAxioms.of_uint63_spec, Hto by lia.
    destruct n as [|p|p]; try lia; [done|]. simpl. apply binary_round_int. lia.
Qed.

(** Back to the integer. *)
Lemma SFtrunc_SFofZ n : SFtrunc (SFofZ n) = Some n.
Proof.
  assert (H : forall s p, SFtrunc (SFofpos s p) = Some (if s then Zneg p else Zpos p)).
  { intros s p. unfold SFofpos. destruct (53 - Zpos (digits2_pos p)) as [|k|k].
    - by destruct s.
    - unfold SFtrunc. cbn [Z.opp].
      rewrite iter_xO_val, Z.shiftr_div_pow2, Z.div_mul by lia. by destruct s.
    - by destruct s. }
  destruct n; simpl; [done|apply H..].
Qed.

Lemma int_of_float64_of_int n :
  - 2 ^ 53 < n < 2 ^ 53 -> int_of_float64 (float64_of_int n) = n.
Proof.
  intros Hn. unfold int_of_float64. rewrite Prim2SF_float64_of_int, SFtrunc_SFofZ by done.
  assert (2 ^ 53 < 2 ^ 63) by done.
  assert (E : (- 2 ^ 63 <=? n) && (n <? 2 ^ 63) = true).
  { apply andb_true_iff. split; [apply Z.leb_le|apply Z.ltb_lt]; lia. }
  by rewrite E.
Qed.

Lemma digits2_pos_le_53 p : Zpos p < 2 ^ 53 -> Zpos (digits2_pos p) <= 53.
Proof.
  intros Hp. pose proof (digits2_pos_bounds p) as [Hd _].
  destruct (Z_le_gt_dec (Zpos (digits2_pos p)) 53) as [|Hgt]; [done|].
  assert (2 ^ 53 <= 2 ^ (Zpos (digits2_pos p) - 1)) by (apply Z.pow_le_mono_r; lia). lia.
Qed.

Lemma key_SFofpos s p :
  Zpos p < 2 ^ 53 ->
  let k := 53 - Zpos (digits2_pos p) in
  key (SFofpos s p) = if s then (-1, k, - (Zpos p * 2 ^ k)) else (1, - k, Zpos p * 2 ^ k).
Proof.
  intros Hp k. pose proof (digits2_pos_le_53 p Hp). subst k. unfold SFofpos.
  destruct (53 - Zpos (digits2_pos p)) as [|k|k] eqn:Ek; try lia.
  - simpl. rewrite Z.mul_1_r. by destruct s.
  - unfold key. rewrite <- iter_xO_val. by destruct s.
Qed.

Lemma pos_lt_by_digits a b :
  Zpos (digits2_pos a) < Zpos (digits2_pos b) -> Zpos a < Zpos b.
Proof.
  intros H. pose proof (digits2_pos_bounds a) as [_ Ha].
  pose proof (digits2_pos_bounds b) as [Hb _].
  assert (2 ^ Zpos (digits2_pos a) <= 2 ^ (Zpos (digits2_pos b) - 1))
    by (apply Z.pow_le_mono_r; lia).
  lia.
Qed.

Lemma lexlt_SFofpos a b :
  Zpos a < 2 ^ 53 -> Zpos b < 2 ^ 53 ->
  (lexlt (key (SFofpos false a)) (key (SFofpos false b)) <-> Zpos a < Zpos b) /\
  (lexlt (key (SFofpos true a)) (key (SFofpos true b)) <-> Zpos b < Zpos a).
Proof.
  intros Ha Hb. rewrite !key_SFofpos by done. unfold lexlt.
  set (da := Zpos (digits2_pos a)). set (db := Zpos (digits2_pos b)).
  destruct (Z.lt_trichotomy da db) as [Hlt|[Heq|Hgt]].
  - pose proof (pos_lt_by_digits a b Hlt). split; split; intros; lia.
  - rewrite Heq.
    assert (Hk : 0 < 2 ^ (53 - db)).
    { apply Z.pow_pos_nonneg; [lia|]. pose proof (digits2_pos_le_53 b Hb). lia. }
    split; split; intros; nia.
  - pose proof (pos_lt_by_digits b a Hgt). split; split; intros; lia.
Qed.

Lemma key_SFofpos_class s p :
  Zpos p < 2 ^ 53 -> fst (fst (key (SFofpos s p))) = if s then -1 else 1.
Proof. intros Hp. rewrite key_SFofpos by done. by destruct s. Qed.

Lemma lexlt_SFofZ a b :
  - 2 ^ 53 < a < 2 ^ 53 -> - 2 ^ 53 < b < 2 ^ 53 ->
  lexlt (key (SFofZ a)) (key (SFofZ b)) <-> a < b.
Proof.
  intros Ha Hb.
  destruct a as [|a|a], b as [|b|b]; unfold SFofZ;
    try (apply lexlt_SFofpos; lia);
    try (destruct (lexlt_SFofpos a b ltac:(lia) ltac:(lia)) as [_ Hn]; rewrite Hn; lia);
    try (pose proof (key_SFofpos_class false a ltac:(lia)) as Hca);
    try (pose proof (key_SFofpos_class true a ltac:(lia)) as Hca');
    try (pose proof (key_SFofpos_class false b ltac:(lia)) as Hcb);
    try (pose proof (key_SFofpos_class true b ltac:(lia)) as Hcb');
    repeat match goal with
           | |- context [key (SFofpos ?s ?p)] =>
               let x := fresh "a" in let y := fresh "b" in let z := fresh "c" in
               destruct (key (SFofpos s p)) as [[x y] z]
           end;
    simpl in *; lia.
Qed.

Lemma SFofZ_not_nan n : SFofZ n <> S754_nan.
Proof.
  destruct n as [|p|p]; simpl; try done;
    unfold SFofpos; by destruct (53 - Zpos (digits2_pos p)).
Qed.

Lemma float64_of_int_number n :
  - 2 ^ 53 < n < 2 ^ 53 -> number (float64_of_int n).
Proof. intros Hn. apply number_Prim2SF. rewrite Prim2SF_float64_of_int by done. apply SFofZ_not_nan. Qed.

(** Comparing two converted integers compares the integers. *)
Lemma ltb_float64_of_int a b :
  - 2 ^ 53 < a < 2 ^ 53 -> - 2 ^ 53 < b < 2 ^ 53 ->
  PrimFloat.ltb (float64_of_int a) (float64_of_int b) = (a <? b).
Proof.
  intros Ha Hb.
  pose proof (ltb_lexlt _ _ (float64_of_int_number a Ha) (float64_of_int_number b Hb)) as H.
  rewrite !Prim2SF_float64_of_int, lexlt_SFofZ in H by done.
  destruct (PrimFloat.ltb _ _), (Z.ltb_spec a b); try done.
  - assert (a < b) by (by apply H). lia.
  - assert (true = false) by (symmetry; by apply H). done.
Qed.

Lemma SFofZ_finite n :
  SFofZ n = S754_zero false \/
  exists (s : bool) (m : positive) (ex : Z), SFofZ n = S754_finite s m ex.
Proof.
  destruct n as [|p|p]; simpl; [by left|right..];
    unfold SFofpos; destruct (53 - Zpos (digits2_pos p)); eauto.
Qed.

Lemma eqb_float64_of_int_infinity n (s : bool) :
  - 2 ^ 53 < n < 2 ^ 53 ->
  PrimFloat.eqb (float64_of_int n) (if s then neg_infinity else infinity) = false.
Proof.
  intros Hn. rewrite FloatAxioms.eqb_spec, Prim2SF_float64_of_int by done.
  replace (Prim2SF (if s then neg_infinity else infinity)) with (S754_infinity s)
    by (by destruct s).
  destruct (SFofZ_finite n) as [->|(s' & m & e & ->)]; unfold SFeqb; simpl;
    by destruct s.
Qed.

Lemma eqb_float64_of_int a b :
  - 2 ^ 53 < a < 2 ^ 53 -> - 2 ^ 53 < b < 2 ^ 53 ->
  PrimFloat.eqb (float64_of_int a) (float64_of_int b) = (a =? b).
Proof.
  intros Ha Hb. rewrite FloatAxioms.eqb_spec, !Prim2SF_float64_of_int by done.
  unfold SFeqb.
  destruct (SFcompare_key _ _ (SFofZ_not_nan a) (SFofZ_not_nan b)) as (c & -> & Hc).
  pose proof (lexlt_SFofZ a b Ha Hb) as Hab. pose proof (lexlt_SFofZ b a Hb Ha) as Hba.
  destruct (Z.eqb_spec a b) as [->|Hne].
  - destruct c; try done; apply Hab in Hc; lia.
  - destruct c; try done.
    assert (a < b \/ b < a) as [H|H] by lia.
    + apply Hab in H. rewrite Hc in H.
      destruct (key (SFofZ b)) as [[? ?] ?]. simpl in H. lia.
    + apply Hba in H. rewrite Hc in H.
      destruct (key (SFofZ b)) as [[? ?] ?]. simpl in H. lia.
Qed.

(** [math.Max] and [math.Min] of two converted integers. *)
Lemma math_Max_float64_of_int a b :
  - 2 ^ 53 < a < 2 ^ 53 -> - 2 ^ 53 < b < 2 ^ 53 ->
  math_Max (float64_of_int a) (float64_of_int b) = float64_of_int (Z.max a b).
Proof.
  intros Ha Hb. unfold math_Max.
  rewrite (eqb_float64_of_int_infinity a false), (eqb_float64_of_int_infinity b false) by done.
  rewrite (float64_of_int_number a Ha), (float64_of_int_number b Hb).
  change 0%float with (float64_of_int 0).
  rewrite !eqb_float64_of_int, ltb_float64_of_int by (done || lia). cbn [orb].
  destruct (Z.eqb_spec a 0) as [->|Ha0]; cbn [andb].
  - destruct (Z.eqb_spec 0 b) as [<-|Hb0].
    + by destruct (get_sign _).
    + destruct (Z.ltb_spec b 0); [by rewrite Z.max_l by lia|by rewrite Z.max_r by lia].
  - destruct (Z.ltb_spec b a); [by rewrite Z.max_l by lia|by rewrite Z.max_r by lia].
Qed.

Lemma math_Min_float64_of_int a b :
  - 2 ^ 53 < a < 2 ^ 53 -> - 2 ^ 53 < b < 2 ^ 53 ->
  math_Min (float64_of_int a) (float64_of_int b) = float64_of_int (Z.min a b).
Proof.
  intros Ha Hb. unfold math_Min.
  rewrite (eqb_float64_of_int_infinity a true), (eqb_float64_of_int_infinity b true) by done.
  rewrite (float64_of_int_number a Ha), (float64_of_int_number b Hb).
  change 0%float with (float64_of_int 0).
  rewrite !eqb_float64_of_int, ltb_float64_of_int by (done || lia). cbn [orb].
  destruct (Z.eqb_spec a 0) as [->|Ha0]; cbn [andb].
  - destruct (Z.eqb_spec 0 b) as [<-|Hb0].
    + by destruct (get_sign _).
    + destruct (Z.ltb_spec 0 b); [by rewrite Z.min_l by lia|by rewrite Z.min_r by lia].
  - destruct (Z.ltb_spec a b); [by rewrite Z.min_l by lia|by rewrite Z.min_r by lia].
Qed.

(** The clamping idiom of the code, [int(math.Max(float64(a), float64(b)))]. *)
Lemma int_Max_float64 a b :
  - 2 ^ 53 < a < 2 ^ 53 -> - 2 ^ 53 < b < 2 ^ 53 ->
  int_of_float64 (math_Max (float64_of_int a) (float64_of_int b)) = Z.max a b.
Proof. intros. rewrite math_Max_float64_of_int by done. apply int_of_float64_of_int. lia. Qed.

Lemma int_Min_float64 a b :
  - 2 ^ 53 < a < 2 ^ 53 -> - 2 ^ 53 < b < 2 ^ 53 ->
  int_of_float64 (math_Min (float64_of_int a) (float64_of_int b)) = Z.min a b.
Proof. intros. rewrite math_Min_float64_of_int by done. apply int_of_float64_of_int. lia. Qed.

(* ===================================================================== *)
(** * Sample inputs                                                         *)
(* ===================================================================== *)

Module Samples.

Definition white : RGBA := mkRGBA 65535 65535 65535 65535.
Definition black : RGBA := mkRGBA 0 0 0 65535.

(** A black [W] x [H] image. *)
Definition blackImage (W H : Z) : Image :=
  mkImage (mkRect 0 0 W H) (fun _ _ => black).

(** A black [W] x [H] image with a white [w] x [h] patch at [(px, py)]. *)
Definition patchImage (W H px py w h : Z) : Image :=
  mkImage (mkRect 0 0 W H)
    (fun x y =>
       if (px <=? x) && (x <? px + w) && (py <=? y) && (y <? py + h)
       then white else black).

(** Three candidates of one size; the first two tie, the third beats both. *)
Definition tiedFirst : Region := mkRegion 0 0 10 10 1.
Definition tiedSecond : Region := mkRegion 1 0 10 10 1.
Definition best : Region := mkRegion 2 0 10 10 2.

(** A detector whose weights turn bright pixels into negative saliency and
    whose threshold lets negative scores through. *)
Definition darkDetector : SubjectDetector :=
  NewWithConfig (mkDetectionConfig (-1) 0.3 (-0.2) 0.5 0.2).

Definition whiteImage (W H : Z) : Image :=
  mkImage (mkRect 0 0 W H) (fun _ _ => white).

End Samples.

(* ===================================================================== *)
(** * C6: the ranking of filterAndScoreRegions                              *)
(* ===================================================================== *)

(** C6, as stated, fails: the filter's output is not the stable descending
    sort of the survivors.  Of two regions with equal scores followed by a
    better one, the exchange with the better one moves the first behind the
    second. *)
Lemma filterAndScoreRegions_not_stable :
  let raw := [Samples.tiedFirst; Samples.tiedSecond; Samples.best] in
  keepLargeRegions New raw 10 10 = raw /\
  filterAndScoreRegions New raw 10 10
    = [Samples.best; Samples.tiedSecond; Samples.tiedFirst] /\
  Spec.stableSortByScore (keepLargeRegions New raw 10 10)
    = [Samples.best; Samples.tiedFirst; Samples.tiedSecond] /\
  filterAndScoreRegions New raw 10 10
    <> Spec.stableSortByScore (keepLargeRegions New raw 10 10).
Proof.
  vm_compute. repeat split. discriminate.
Qed.

(** C6, amended: for raw regions whose scores are numbers, the filter's
    output is a rearrangement of the regions that survive the area test in
    which no region is followed, at any distance, by a region of greater
    score. *)
Theorem filterAndScoreRegions_ranked (d : SubjectDetector) (regions : list Region)
    (imageWidth imageHeight : Z) :
  Forall (fun r => is_nan (Score r) = false) regions ->
  let ranked := filterAndScoreRegions d regions imageWidth imageHeight in
  ranked ≡ₚ keepLargeRegions d regions imageWidth imageHeight /\
  StronglySorted (fun a b => PrimFloat.ltb (Score a) (Score b) = false) ranked.
Proof.
  intros Hs ranked. subst ranked. unfold filterAndScoreRegions.
  split; [apply sortByScore_perm|].
  apply sortByScore_sorted. unfold keepLargeRegions.
  rewrite Forall_forall in Hs |- *. intros r Hr.
  apply list_elem_of_In, filter_In in Hr as [Hr _].
  apply Hs. by apply list_elem_of_In.
Qed.

Lemma filterAndScoreRegions_ranked_witness :
  let raw := [Samples.tiedFirst; Samples.tiedSecond; Samples.best] in
  Forall (fun r => is_nan (Score r) = false) raw /\
  (filterAndScoreRegions New raw 10 10 ≡ₚ keepLargeRegions New raw 10 10 /\
   StronglySorted (fun a b => PrimFloat.ltb (Score a) (Score b) = false)
     (filterAndScoreRegions New raw 10 10)).
Proof.
  assert (H : Forall (fun r => is_nan (Score r) = false)
                [Samples.tiedFirst; Samples.tiedSecond; Samples.best]).
  { repeat constructor. }
  split; [exact H|].
  exact (filterAndScoreRegions_ranked New _ 10 10 H).
Defined.

(* ===================================================================== *)
(** * C5: what DetectSubjects returns                                       *)
(* ===================================================================== *)

Lemma fold_left_invariant {A B : Type} (P : A -> Prop) (f : A -> B -> A)
    (l : list B) (a : A) :
  P a -> (forall a b, P a -> P (f a b)) -> P (fold_left f l a).
Proof. intros Ha Hf. revert a Ha. induction l; simpl; auto. Qed.

(** What the scanner guarantees of each candidate it emits. *)
Definition scanned (d : SubjectDetector) (r : Region) : Prop :=
  10 <= Width r /\ Height r = Width r /\
  PrimFloat.ltb (EdgeThreshold (config d)) (Score r) = true.

Lemma findImportantRegions_scanned d saliencyMap width height :
  Forall (scanned d) (findImportantRegions d saliencyMap width height).
Proof.
  unfold findImportantRegions. apply fold_left_invariant; [constructor|].
  intros regions windowSize Hr. unfold scanSize.
  destruct (windowSize <? 10) eqn:Hw; [done|]. apply Z.ltb_ge in Hw.
  apply fold_left_invariant; [done|]. intros regions1 y Hr1.
  apply fold_left_invariant; [done|]. intros regions2 x Hr2.
  unfold scanWindow.
  destruct (PrimFloat.ltb _ _) eqn:Hs; [|done].
  apply Forall_app; split; [done|]. apply Forall_singleton.
  repeat split; simpl; [lia|done].
Qed.

Lemma rankedRegions_scanned d img ranked :
  rankedRegions d img = Ok ranked ->
  Forall (fun r => scanned d r /\
                   minArea d (Dx (Bounds img)) (Dy (Bounds img)) <= Area r) ranked.
Proof.
  unfold rankedRegions. destruct (calculateSaliencyMap d img) as [sal| |]; simpl; try done.
  intros [= <-]. unfold filterAndScoreRegions. rewrite sortByScore_perm.
  unfold keepLargeRegions. rewrite Forall_forall. intros r Hr.
  apply list_elem_of_In, filter_In in Hr as [Hr Ha]. split.
  - pose proof (findImportantRegions_scanned d sal (Dx (Bounds img)) (Dy (Bounds img))) as H.
    rewrite Forall_forall in H. by apply H, list_elem_of_In.
  - by apply Z.leb_le.
Qed.

(** [DetectSubjects] is the ranked list cut to its first ten entries. *)
Lemma DetectSubjects_take d img :
  DetectSubjects d img = ranked ← rankedRegions d img; Ok (take maxRegions ranked).
Proof.
  unfold DetectSubjects. destruct (rankedRegions d img) as [ranked| |]; simpl; try done.
  destruct (maxRegions <? length ranked)%nat eqn:E; [done|].
  apply Nat.ltb_ge in E. by rewrite take_ge.
Qed.

(** C5, as stated, fails twice.  The area bound is the product cut to an
    integer, not rounded: in a 42 x 48 image the bound is [int(100.8) = 100],
    so 10 x 10 regions are returned although [round(100.8) = 101].  And a
    score is only above the edge threshold: under a negative threshold and
    a negative colour weight the returned scores are negative. *)
Lemma DetectSubjects_area_below_rounded :
  let img := Samples.patchImage 42 48 20 20 3 3 in
  (exists r regions,
     DetectSubjects New img = Ok (r :: regions) /\
     minArea New 42 48 = 100 /\ Area r = 100 /\ Spec.roundedMinArea New 42 48 = 101 /\
     ~ Area r >= Spec.roundedMinArea New 42 48) /\
  (exists r regions,
     DetectSubjects Samples.darkDetector (Samples.whiteImage 80 20) = Ok (r :: regions) /\
     PrimFloat.ltb (Score r) 0 = true /\ PrimFloat.leb 0 (Score r) = false).
Proof.
  split.
  - eexists _, _. split; [vm_compute; reflexivity|].
    vm_compute. repeat split; congruence.
  - eexists _, _. split; [vm_compute; reflexivity|].
    vm_compute. by split.
Qed.

(** C5, amended: [DetectSubjects] returns at most ten regions; each is a
    square of side at least 10 (so of positive width and height), has a score
    above the edge threshold (so a score that is not negative whenever the
    threshold is not), and has an area of at least
    [int(float64(imageArea) * minSubjectRatio)], the product with its
    fraction discarded. *)
Theorem DetectSubjects_regions (d : SubjectDetector) (img : Image) (regions : list Region) :
  DetectSubjects d img = Ok regions ->
  (length regions <= 10)%nat /\
  Forall (fun r =>
            0 < Width r /\ 0 < Height r /\
            PrimFloat.ltb (EdgeThreshold (config d)) (Score r) = true /\
            (PrimFloat.leb 0 (EdgeThreshold (config d)) = true ->
             PrimFloat.leb 0 (Score r) = true) /\
            minArea d (Dx (Bounds img)) (Dy (Bounds img)) <= Area r)
    regions.
Proof.
  rewrite DetectSubjects_take.
  destruct (rankedRegions d img) as [ranked| |] eqn:Hr; simpl; try done.
  intros [= <-]. split.
  - rewrite length_take. unfold maxRegions. lia.
  - apply Forall_take. eapply Forall_impl; [exact (rankedRegions_scanned _ _ _ Hr)|].
    intros r [(Hw & Hh & Hs) Ha]. repeat split; try lia; try done.
    intros H0. apply ltb_leb. by eapply leb_ltb_trans.
Qed.

Lemma DetectSubjects_regions_witness :
  let img := Samples.patchImage 42 48 20 20 3 3 in
  exists regions,
    DetectSubjects New img = Ok regions /\
    ((length regions <= 10)%nat /\
     Forall (fun r =>
               0 < Width r /\ 0 < Height r /\
               PrimFloat.ltb (EdgeThreshold (config New)) (Score r) = true /\
               (PrimFloat.leb 0 (EdgeThreshold (config New)) = true ->
                PrimFloat.leb 0 (Score r) = true) /\
               minArea New (Dx (Bounds img)) (Dy (Bounds img)) <= Area r)
       regions).
Proof.
  intros img.
  destruct (DetectSubjects New img) as [regions| |] eqn:E.
  - exists regions. split; [reflexivity|].
    exact (DetectSubjects_regions New img regions E).
  - vm_compute in E. discriminate.
  - vm_compute in E. discriminate.
Defined.

(* ===================================================================== *)
(** * The position search of findOptimalCropPosition                        *)
(* ===================================================================== *)

Lemma fold_left_invariant_in {A B : Type} (P : A -> Prop) (f : A -> B -> A)
    (l : list B) (a : A) :
  P a -> (forall a b, b ∈ l -> P a -> P (f a b)) -> P (fold_left f l a).
Proof.
  revert a. induction l as [|b l IH]; intros a Ha Hf; simpl; [done|].
  apply IH.
  - apply Hf; [by left|done].
  - intros a' b' Hb'. apply Hf. by right.
Qed.

Lemma stride_range_bounds limit step v :
  0 < step -> v ∈ stride_range limit step -> 0 <= v <= limit.
Proof.
  intros Hstep. unfold stride_range.
  destruct (limit <? 0) eqn:E; [intros H; by apply elem_of_nil in H|].
  apply Z.ltb_ge in E.
  intros (k & -> & Hk)%list_elem_of_fmap. apply elem_of_seqZ in Hk.
  assert (k <= limit / step) by lia.
  assert (limit / step * step <= limit) by (rewrite Z.mul_comm; apply Z.mul_div_le; lia).
  nia.
Qed.


Lemma stepSize_pos cropWidth cropHeight : 0 < stepSize cropWidth cropHeight.
Proof. unfold stepSize. destruct (_ <? 10) eqn:E; [lia|]. apply Z.ltb_ge in E. lia. Qed.





(** When the crop is larger than the image on either axis no position is
    scanned and the centred default, with score 0, is returned. *)
Lemma stride_range_none limit step : limit < 0 -> stride_range limit step = [].
Proof.
  intros H. unfold stride_range.
  assert (E : (limit <? 0) = true) by (apply Z.ltb_lt; lia). by rewrite E.
Qed.

Lemma findOptimalCropPosition_no_position subjects cropWidth cropHeight imageWidth imageHeight :
  imageWidth < cropWidth \/ imageHeight < cropHeight ->
  findOptimalCropPosition subjects cropWidth cropHeight imageWidth imageHeight
  = centeredRegion cropWidth cropHeight imageWidth imageHeight.
Proof.
  intros H. unfold findOptimalCropPosition.
  destruct (decide (imageHeight < cropHeight)) as [Hh|Hh].
  - by rewrite (stride_range_none (imageHeight - cropHeight)) by lia.
  - rewrite (stride_range_none (imageWidth - cropWidth)) by lia. simpl.
    by induction (stride_range (imageHeight - cropHeight) _).
Qed.

(* ===================================================================== *)
(** * C1: FindBestCropRegion when nothing is detected                       *)
(* ===================================================================== *)




(* ===================================================================== *)
(** * C2: the crop size and the bounds of the returned window               *)
(* ===================================================================== *)






(* ===================================================================== *)
(** * C4: the list the position search consumes                             *)
(* ===================================================================== *)

(** [FindBestCropRegion] had it searched with the whole ranked list. *)
Definition FindBestCropRegion_untruncated (d : SubjectDetector) (img : Image)
    (targetAspectRatio : float64) : outcome Region :=
  let width := Dx (Bounds img) in
  let height := Dy (Bounds img) in
  ranked ← rankedRegions d img;
  let '(cropWidth, cropHeight) := cropDimensions width height targetAspectRatio in
  Ok (findOptimalCropPosition ranked cropWidth cropHeight width height).

Module SamplesC4.
Import Samples.

Definition gray : RGBA := mkRGBA 60000 60000 60000 65535.

Definition inPatch (px py x y : Z) : bool :=
  (px <=? x) && (x <? px + 3) && (py <=? y) && (y <? py + 3).

(** An 80 x 40 black image with a white 3 x 3 patch near the left edge and a
    slightly darker one in the right half. *)
Definition twoPatches : Image :=
  mkImage (mkRect 0 0 80 40)
    (fun x y =>
       if inPatch 3 18 x y then white
       else if inPatch 58 18 x y then gray
       else black).
End SamplesC4.

(** C4, as stated, fails: the search scores windows against the ten regions
    [DetectSubjects] returns.  In the sample the ranked list has 99 regions;
    the ten best all surround the left patch, so the crop for ratio 1 is the
    left half, while the whole list, whose many regions around the right
    patch outweigh them, puts it on the right half. *)
Lemma FindBestCropRegion_uses_truncated_list :
  (exists ranked, rankedRegions New SamplesC4.twoPatches = Ok ranked /\ length ranked = 99%nat) /\
  FindBestCropRegion New SamplesC4.twoPatches 1
  = Ok (mkRegion 0 0 40 40 0.14892304845413265) /\
  FindBestCropRegion_untruncated New SamplesC4.twoPatches 1
  = Ok (mkRegion 40 0 40 40 1.0804610213794763) /\
  FindBestCropRegion New SamplesC4.twoPatches 1
  <> FindBestCropRegion_untruncated New SamplesC4.twoPatches 1.
Proof.
  split; [|split; [|split]].
  - eexists. split; [vm_compute; reflexivity|]. vm_compute. reflexivity.
  - vm_compute. reflexivity.
  - vm_compute. reflexivity.
  - vm_compute. discriminate.
Qed.

(** C4, amended: the position search of [FindBestCropRegion] scores the
    candidate windows against the first ten regions of the filtered and
    sorted list, the same list [DetectSubjects] returns. *)
Theorem FindBestCropRegion_truncated (d : SubjectDetector) (img : Image)
    (targetAspectRatio : float64) :
  let width := Dx (Bounds img) in
  let height := Dy (Bounds img) in
  FindBestCropRegion d img targetAspectRatio
  = (ranked ← rankedRegions d img;
     Ok (findOptimalCropPosition (take 10 ranked)
           (fst (cropDimensions width height targetAspectRatio))
           (snd (cropDimensions width height targetAspectRatio))
           width height)) /\
  DetectSubjects d img = (ranked ← rankedRegions d img; Ok (take 10 ranked)).
Proof.
  intros width height. split; [|apply DetectSubjects_take].
  unfold FindBestCropRegion. rewrite DetectSubjects_take.
  destruct (rankedRegions d img) as [ranked| |]; simpl; try done.
  fold width height. by destruct (cropDimensions width height targetAspectRatio).
Qed.

(* ===================================================================== *)
(** * More of package [vision]: detection                                   *)
(* ===================================================================== *)

(** ** When DetectSubjects returns *)

(** The only way out of [DetectSubjects] besides a list is the panic of
    [make] in [calculateSaliencyMap]. *)
Lemma DetectSubjects_cases d img :
  (DetectSubjects d img = Panic "makeslice: len out of range" /\
   (Dy (Bounds img) < 0 \/ 0 < Dy (Bounds img) /\ Dx (Bounds img) < 0)) \/
  (exists regions, DetectSubjects d img = Ok regions) /\
  0 <= Dy (Bounds img) /\ (Dy (Bounds img) = 0 \/ 0 <= Dx (Bounds img)).
Proof.
  unfold DetectSubjects, rankedRegions, calculateSaliencyMap.
  destruct (Z.ltb_spec (Dy (Bounds img)) 0) as [Hh|Hh]; [left; split; [done|lia]|].
  destruct (Z.ltb_spec 0 (Dy (Bounds img))) as [Hh'|Hh'];
    destruct (Z.ltb_spec (Dx (Bounds img)) 0) as [Hw|Hw]; simpl.
  - left. split; [done|lia].
  - right. split; [eauto|lia].
  - right. split; [eauto|lia].
  - right. split; [eauto|lia].
Qed.

Lemma DetectSubjects_ok d img :
  0 <= Dy (Bounds img) -> Dy (Bounds img) = 0 \/ 0 <= Dx (Bounds img) ->
  exists regions, DetectSubjects d img = Ok regions.
Proof.
  intros Hh Hw. destruct (DetectSubjects_cases d img) as [[_ H]|[H _]]; [lia|done].
Qed.

(** [DetectSubjects] never returns an error, and it returns a list exactly
    when no dimension makes the allocation of the saliency map panic: the
    height is not negative, and neither is the width unless there is no row
    to allocate. *)
Theorem DetectSubjects_outcome (d : SubjectDetector) (img : Image) :
  (forall e, DetectSubjects d img <> Err e) /\
  ((exists regions, DetectSubjects d img = Ok regions) <->
   0 <= Dy (Bounds img) /\ (Dy (Bounds img) = 0 \/ 0 <= Dx (Bounds img))).
Proof.
  destruct (DetectSubjects_cases d img) as [[E H]|[[regions E] H]]; rewrite E.
  - split; [done|]. split; [by intros [? ?]|lia].
  - split; [done|]. split; [done|eauto].
Qed.

(** ** Where the regions lie *)

Lemma quot_pos_step windowSize : 10 <= windowSize -> 0 < Z.quot windowSize 8.
Proof.
  intros H. rewrite Z.quot_div_nonneg by lia. apply Z.div_str_pos. lia.
Qed.

(** Where the scanner puts its candidates. *)
Definition placed (width height : Z) (r : Region) : Prop :=
  0 <= X r /\ 0 <= Y r /\ X r + Width r <= width /\ Y r + Height r <= height /\
  Height r = Width r /\ Width r ∈ windowSizes width.

Lemma findImportantRegions_placed d saliencyMap width height :
  Forall (placed width height) (findImportantRegions d saliencyMap width height).
Proof.
  unfold findImportantRegions.
  apply (fold_left_invariant_in (Forall (placed width height))); [constructor|].
  intros regions windowSize Hin Hr. unfold scanSize.
  destruct (windowSize <? 10) eqn:Hw; [done|]. apply Z.ltb_ge in Hw.
  pose proof (quot_pos_step _ Hw) as Hstep.
  apply fold_left_invariant_in; [done|]. intros regions1 y Hy Hr1.
  apply fold_left_invariant_in; [done|]. intros regions2 x Hx Hr2.
  unfold scanWindow. destruct (PrimFloat.ltb _ _); [|done].
  apply Forall_app; split; [done|]. apply Forall_singleton.
  apply stride_range_bounds in Hx, Hy; try done.
  unfold placed. simpl. repeat split; try lia. done.
Qed.

Lemma rankedRegions_placed d img ranked :
  rankedRegions d img = Ok ranked ->
  Forall (placed (Dx (Bounds img)) (Dy (Bounds img))) ranked.
Proof.
  unfold rankedRegions. destruct (calculateSaliencyMap d img) as [sal| |]; simpl; try done.
  intros [= <-]. unfold filterAndScoreRegions. rewrite sortByScore_perm.
  unfold keepLargeRegions. rewrite Forall_forall. intros r Hr.
  apply list_elem_of_In, filter_In in Hr as [Hr _].
  pose proof (findImportantRegions_placed d sal (Dx (Bounds img)) (Dy (Bounds img))) as H.
  rewrite Forall_forall in H. by apply H, list_elem_of_In.
Qed.

(** Every region [DetectSubjects] returns is a square window of one of the
    five scanned sizes and lies inside the image (taken with its corner at
    the origin, as the scanner takes it). *)
Theorem DetectSubjects_inside_image (d : SubjectDetector) (img : Image) (regions : list Region) :
  DetectSubjects d img = Ok regions ->
  Forall (fun r =>
            0 <= X r /\ 0 <= Y r /\
            X r + Width r <= Dx (Bounds img) /\ Y r + Height r <= Dy (Bounds img) /\
            Height r = Width r /\ Width r ∈ windowSizes (Dx (Bounds img)))
    regions.
Proof.
  rewrite DetectSubjects_take.
  destruct (rankedRegions d img) as [ranked| |] eqn:Hr; simpl; try done.
  intros [= <-]. apply Forall_take. exact (rankedRegions_placed _ _ _ Hr).
Qed.

Lemma DetectSubjects_inside_image_witness :
  let img := Samples.patchImage 42 48 20 20 3 3 in
  exists regions,
    DetectSubjects New img = Ok regions /\ regions <> [] /\
    Forall (fun r =>
              0 <= X r /\ 0 <= Y r /\
              X r + Width r <= Dx (Bounds img) /\ Y r + Height r <= Dy (Bounds img) /\
              Height r = Width r /\ Width r ∈ windowSizes (Dx (Bounds img)))
      regions.
Proof.
  intros img.
  assert (E : exists regions, DetectSubjects New img = Ok regions /\ regions <> []).
  { vm_compute. eexists. split; [reflexivity|discriminate]. }
  destruct E as (regions & E & Hne). exists regions.
  split; [exact E|]. split; [exact Hne|].
  exact (DetectSubjects_inside_image New img regions E).
Defined.

(** ** Small images *)

(** An image too small for a window of the least size, 10: nothing is
    scanned. *)
Lemma findImportantRegions_small d saliencyMap width height :
  width < 40 \/ height < 10 -> findImportantRegions d saliencyMap width height = [].
Proof.
  intros [Hw|Hh]; unfold findImportantRegions.
  - assert (H : forall k, 4 <= k -> (Z.quot width k <? 10) = true).
    { intros k Hk. apply Z.ltb_lt.
      destruct (Z_lt_le_dec width 0) as [Hneg|Hpos].
      - pose proof (Z.quot_opp_l width k ltac:(lia)) as Ho.
        assert (0 <= Z.quot (- width) k) by (apply Z.quot_pos; lia). lia.
      - rewrite Z.quot_div_nonneg by lia. apply Z.div_lt_upper_bound; lia. }
    unfold windowSizes. simpl. unfold scanSize. by rewrite !H by lia.
  - apply (fold_left_invariant (fun regions => regions = [])); [done|].
    intros regions windowSize ->. unfold scanSize.
    destruct (windowSize <? 10) eqn:E; [done|]. apply Z.ltb_ge in E.
    by rewrite (stride_range_none (height - windowSize)) by lia.
Qed.

(** An image narrower than 40 pixels or lower than 10 has no room for a
    window of the least size, 10: [DetectSubjects] reports no subject,
    whatever the image shows and whatever the configuration. *)
Theorem DetectSubjects_small_image (d : SubjectDetector) (img : Image) :
  0 <= Dy (Bounds img) -> Dy (Bounds img) = 0 \/ 0 <= Dx (Bounds img) ->
  Dx (Bounds img) < 40 \/ Dy (Bounds img) < 10 ->
  DetectSubjects d img = Ok [].
Proof.
  intros Hh Hw Hsmall.
  unfold DetectSubjects, rankedRegions, calculateSaliencyMap.
  assert (E1 : (Dy (Bounds img) <? 0) = false) by (apply Z.ltb_ge; lia).
  assert (E2 : (0 <? Dy (Bounds img)) && (Dx (Bounds img) <? 0) = false).
  { apply andb_false_iff. rewrite Z.ltb_ge, Z.ltb_ge. lia. }
  rewrite E1, E2. simpl.
  by rewrite findImportantRegions_small by lia.
Qed.

Lemma DetectSubjects_small_image_witness :
  DetectSubjects New (Samples.patchImage 39 200 10 10 20 20) = Ok [] /\
  DetectSubjects New (Samples.patchImage 200 9 10 2 20 5) = Ok [].
Proof.
  split.
  - apply (DetectSubjects_small_image New (Samples.patchImage 39 200 10 10 20 20));
      unfold Dx, Dy; simpl; lia.
  - apply (DetectSubjects_small_image New (Samples.patchImage 200 9 10 2 20 5));
      unfold Dx, Dy; simpl; lia.
Defined.

(** ** calculateSaliencyMap *)

(** The map has one row for each row of the image and one cell for each
    column, and every cell on the border of the image is zero. *)
Theorem calculateSaliencyMap_shape (d : SubjectDetector) (img : Image)
    (saliencyMap : list (list float64)) :
  calculateSaliencyMap d img = Ok saliencyMap ->
  let width := Dx (Bounds img) in
  let height := Dy (Bounds img) in
  length saliencyMap = Z.to_nat height /\
  Forall (fun row => length row = Z.to_nat width) saliencyMap /\
  forall (x y : nat) (row : list float64) (v : float64),
    saliencyMap !! y = Some row -> row !! x = Some v ->
    x = 0%nat \/ y = 0%nat \/ Z.of_nat x = width - 1 \/ Z.of_nat y = height - 1 ->
    v = 0%float.
Proof.
  intros Hs width height. unfold calculateSaliencyMap in Hs. fold width height in Hs.
  destruct (height <? 0); [done|]. destruct ((0 <? height) && (width <? 0)); [done|].
  injection Hs as <-. split; [|split].
  - by rewrite length_fmap, length_seqZ.
  - apply Forall_fmap, Forall_forall. intros y _. simpl.
    by rewrite length_fmap, length_seqZ.
  - intros x y row v Hrow Hv Hborder.
    apply list_lookup_fmap_Some in Hrow as (y' & -> & Hy).
    apply list_lookup_fmap_Some in Hv as (x' & -> & Hx).
    apply lookup_seqZ in Hy as [-> Hy]. apply lookup_seqZ in Hx as [-> Hx].
    assert (E : (1 <=? 0 + Z.of_nat y) && (0 + Z.of_nat y <? height - 1)
                && (1 <=? 0 + Z.of_nat x) && (0 + Z.of_nat x <? width - 1) = false).
    { apply not_true_is_false. rewrite !andb_true_iff, !Z.leb_le, !Z.ltb_lt. lia. }
    by rewrite E.
Qed.

Lemma calculateSaliencyMap_shape_witness :
  let img := Samples.patchImage 5 4 1 1 2 2 in
  exists saliencyMap,
    calculateSaliencyMap New img = Ok saliencyMap /\
    length saliencyMap = 4%nat /\
    Forall (fun row => length row = 5%nat) saliencyMap /\
    forall (x y : nat) (row : list float64) (v : float64),
      saliencyMap !! y = Some row -> row !! x = Some v ->
      x = 0%nat \/ y = 0%nat \/ Z.of_nat x = 5 - 1 \/ Z.of_nat y = 4 - 1 ->
      v = 0%float.
Proof.
  intros img.
  assert (E : exists saliencyMap, calculateSaliencyMap New img = Ok saliencyMap).
  { vm_compute. eexists. reflexivity. }
  destruct E as (saliencyMap & E). exists saliencyMap. split; [exact E|].
  exact (calculateSaliencyMap_shape New img saliencyMap E).
Defined.

(** ** filterAndScoreRegions *)

(** The filter keeps exactly the candidates whose area is at least the
    least area, each as often as it was given, whatever their scores: the
    sort neither drops nor repeats a region. *)
Lemma filterAndScoreRegions_members (d : SubjectDetector) (regions : list Region)
    (imageWidth imageHeight : Z) :
  filterAndScoreRegions d regions imageWidth imageHeight
  ≡ₚ List.filter (fun r => minArea d imageWidth imageHeight <=? Area r) regions /\
  forall r, r ∈ filterAndScoreRegions d regions imageWidth imageHeight <->
            r ∈ regions /\ minArea d imageWidth imageHeight <= Area r.
Proof.
  assert (H : filterAndScoreRegions d regions imageWidth imageHeight
              ≡ₚ List.filter (fun r => minArea d imageWidth imageHeight <=? Area r) regions).
  { apply sortByScore_perm. }
  split; [done|]. intros r. rewrite H, !list_elem_of_In, filter_In, Z.leb_le. done.
Qed.

(* ===================================================================== *)
(** * More of package [vision]: the position search                         *)
(* ===================================================================== *)

Lemma ltb_trans x y z :
  PrimFloat.ltb x y = true -> PrimFloat.ltb y z = true -> PrimFloat.ltb x z = true.
Proof. intros H1 H2. eapply leb_ltb_trans; [apply ltb_leb, H1|done]. Qed.

(** A greater value is not below anything the smaller one was not below. *)
Lemma ltb_raise x y z :
  PrimFloat.ltb x y = true -> PrimFloat.ltb x z = false -> PrimFloat.ltb y z = false.
Proof.
  intros H1 H2. destruct (is_nan z) eqn:Hz.
  - destruct (PrimFloat.ltb y z) eqn:E; [|done].
    apply ltb_number in E as [_ E]. unfold number in E. congruence.
  - by eapply ltb_true_false_trans.
Qed.

Lemma ltb_irrefl x : PrimFloat.ltb x x = false.
Proof.
  destruct (PrimFloat.ltb x x) eqn:E; [|done].
  pose proof (ltb_asym _ _ E). congruence.
Qed.

(** What the search holds after any number of candidates: the default, or a
    scanned window with its own, positive, score. *)
Definition searched (subjects : list Region) (cropWidth cropHeight imageWidth imageHeight : Z)
    (best : float * Region) : Prop :=
  best = (0%float, centeredRegion cropWidth cropHeight imageWidth imageHeight) \/
  (PrimFloat.ltb 0 (fst best) = true /\
   0 <= X (snd best) <= imageWidth - cropWidth /\
   0 <= Y (snd best) <= imageHeight - cropHeight /\
   snd best = mkRegion (X (snd best)) (Y (snd best)) cropWidth cropHeight (fst best) /\
   fst best = scorecropPosition subjects (X (snd best)) (Y (snd best)) cropWidth cropHeight).

Lemma findOptimalCropPosition_searched subjects cropWidth cropHeight imageWidth imageHeight :
  exists bestScore,
    searched subjects cropWidth cropHeight imageWidth imageHeight
      (bestScore, findOptimalCropPosition subjects cropWidth cropHeight imageWidth imageHeight).
Proof.
  unfold findOptimalCropPosition.
  pose proof (stepSize_pos cropWidth cropHeight) as Hstep.
  match goal with |- context [snd ?b] => set (final := b) end.
  exists (fst final). rewrite <- surjective_pairing. subst final.
  apply fold_left_invariant_in; [by left|].
  intros best y Hy Hbest. apply fold_left_invariant_in; [done|].
  intros best' x Hx Hbest'. unfold tryPosition.
  destruct (PrimFloat.ltb _ _) eqn:E; [|done]. right. simpl.
  apply stride_range_bounds in Hx, Hy; try done.
  split; [|done].
  destruct Hbest' as [->|(Hpos & _)]; [done|]. by eapply ltb_trans.
Qed.

(** The window [findOptimalCropPosition] returns is either the centred
    default with score 0, or a window inside the image whose score is the
    score [scorecropPosition] gives it, and that score is above 0. *)
Theorem findOptimalCropPosition_score (subjects : list Region)
    (cropWidth cropHeight imageWidth imageHeight : Z) :
  let region := findOptimalCropPosition subjects cropWidth cropHeight imageWidth imageHeight in
  region = centeredRegion cropWidth cropHeight imageWidth imageHeight \/
  (0 <= X region <= imageWidth - cropWidth /\
   0 <= Y region <= imageHeight - cropHeight /\
   Score region = scorecropPosition subjects (X region) (Y region) cropWidth cropHeight /\
   PrimFloat.ltb 0 (Score region) = true).
Proof.
  intros region.
  destruct (findOptimalCropPosition_searched subjects cropWidth cropHeight imageWidth imageHeight)
    as (bestScore & [H|(Hpos & Hx & Hy & Hr & Hs)]).
  - left. by injection H.
  - right. fold region in Hx, Hy, Hr, Hs. simpl in *.
    assert (Score region = bestScore) as -> by (by rewrite Hr).
    done.
Qed.

(** No position the search tries scores above the window it returns. *)
Theorem findOptimalCropPosition_maximal (subjects : list Region)
    (cropWidth cropHeight imageWidth imageHeight x y : Z) :
  let step := stepSize cropWidth cropHeight in
  x ∈ stride_range (imageWidth - cropWidth) step ->
  y ∈ stride_range (imageHeight - cropHeight) step ->
  PrimFloat.ltb
    (Score (findOptimalCropPosition subjects cropWidth cropHeight imageWidth imageHeight))
    (scorecropPosition subjects x y cropWidth cropHeight) = false.
Proof.
  intros step Hx Hy.
  set (s := scorecropPosition subjects x y cropWidth cropHeight).
  (* the best score and the score of the best region go together *)
  assert (Hpair : forall xs ys best,
             fst best = Score (snd best) ->
             let final := fold_left
               (fun best y => fold_left (tryPosition subjects cropWidth cropHeight y) xs best)
               ys best in
             fst final = Score (snd final)).
  { intros xs ys best Hb. apply fold_left_invariant; [done|].
    intros b y' Hb'. apply fold_left_invariant; [done|].
    intros b' x' Hb''. unfold tryPosition. by destruct (PrimFloat.ltb _ _). }
  unfold findOptimalCropPosition. fold step.
  rewrite <- Hpair by done.
  (* once a candidate has been tried the best score is never below its score *)
  assert (Hrow : forall xs y' best,
             (PrimFloat.ltb (fst best) s = false \/ (y' = y /\ x ∈ xs)) ->
             PrimFloat.ltb (fst (fold_left (tryPosition subjects cropWidth cropHeight y') xs best)) s
             = false).
  { induction xs as [|x' xs IH]; intros y' best Hb; simpl.
    - destruct Hb as [Hb|[_ Hb]]; [done|by apply elem_of_nil in Hb].
    - apply IH. destruct Hb as [Hb|[-> Hb]].
      + left. unfold tryPosition.
        destruct (PrimFloat.ltb (fst best)
                    (scorecropPosition subjects x' y' cropWidth cropHeight)) eqn:E;
          simpl; [|done]. by eapply ltb_raise.
      + apply elem_of_cons in Hb as [<-|Hb]; [left|by right].
        unfold tryPosition. fold s.
        destruct (PrimFloat.ltb (fst best) s) eqn:E; simpl; [|done]. apply ltb_irrefl. }
  assert (Hrows : forall ys best,
             (PrimFloat.ltb (fst best) s = false \/ y ∈ ys) ->
             PrimFloat.ltb
               (fst (fold_left
                       (fun best y => fold_left (tryPosition subjects cropWidth cropHeight y)
                                        (stride_range (imageWidth - cropWidth) step) best)
                       ys best)) s = false).
  { induction ys as [|y' ys IH]; intros best Hb; simpl.
    - destruct Hb as [Hb|Hb]; [done|by apply elem_of_nil in Hb].
    - apply IH. destruct Hb as [Hb|Hb].
      + left. apply Hrow. by left.
      + apply elem_of_cons in Hb as [<-|Hb]; [|by right].
        left. apply Hrow. by right. }
  apply Hrows. by right.
Qed.

Lemma findOptimalCropPosition_maximal_witness :
  let subjects := [mkRegion 30 10 10 10 1] in
  10 ∈ stride_range (60 - 20) (stepSize 20 20) /\
  20 ∈ stride_range (40 - 20) (stepSize 20 20) /\
  PrimFloat.ltb (Score (findOptimalCropPosition subjects 20 20 60 40))
    (scorecropPosition subjects 10 20 20 20) = false.
Proof.
  intros subjects.
  assert (Hx : 10 ∈ stride_range (60 - 20) (stepSize 20 20)).
  { apply list_elem_of_In. vm_compute. tauto. }
  assert (Hy : 20 ∈ stride_range (40 - 20) (stepSize 20 20)).
  { apply list_elem_of_In. vm_compute. tauto. }
  split; [exact Hx|]. split; [exact Hy|].
  exact (findOptimalCropPosition_maximal subjects 20 20 60 40 10 20 Hx Hy).
Defined.

(** ** scorecropPosition *)

(** A subject that does not meet the window adds nothing to its score. *)
Lemma overlapScore_disjoint cropX cropY cropWidth cropHeight score (subject : Region) :
  let exact n := - 2 ^ 53 < n < 2 ^ 53 in
  exact cropX -> exact cropY -> exact (cropX + cropWidth) -> exact (cropY + cropHeight) ->
  exact (X subject) -> exact (Y subject) ->
  exact (X subject + Width subject) -> exact (Y subject + Height subject) ->
  X subject + Width subject <= cropX \/ cropX + cropWidth <= X subject \/
  Y subject + Height subject <= cropY \/ cropY + cropHeight <= Y subject ->
  overlapScore cropX cropY cropWidth cropHeight score subject = score.
Proof.
  intros exact ? ? ? ? ? ? ? ? Hd. unfold overlapScore.
  rewrite !int_Max_float64, !int_Min_float64 by done.
  assert (E : (Z.max cropX (X subject) <? Z.min (cropX + cropWidth) (X subject + Width subject))
              && (Z.max cropY (Y subject) <? Z.min (cropY + cropHeight) (Y subject + Height subject))
              = false).
  { apply not_true_is_false. rewrite andb_true_iff, !Z.ltb_lt. lia. }
  by rewrite E.
Qed.

(** The corners of a region are integers a [float64] holds exactly. *)
Definition exactRegion (r : Region) : Prop :=
  (- 2 ^ 53 < X r < 2 ^ 53) /\ (- 2 ^ 53 < Y r < 2 ^ 53) /\
  (- 2 ^ 53 < X r + Width r < 2 ^ 53) /\ (- 2 ^ 53 < Y r + Height r < 2 ^ 53).

(** Two regions share no pixel. *)
Definition disjoint (a b : Region) : Prop :=
  X a + Width a <= X b \/ X b + Width b <= X a \/
  Y a + Height a <= Y b \/ Y b + Height b <= Y a.

(** A window that meets none of the subjects scores 0, not the 1 of an empty
    subject list. *)
Theorem scorecropPosition_disjoint (subjects : list Region)
    (cropX cropY cropWidth cropHeight : Z) :
  subjects <> [] ->
  exactRegion (mkRegion cropX cropY cropWidth cropHeight 0) ->
  Forall (fun subject =>
            exactRegion subject /\
            disjoint subject (mkRegion cropX cropY cropWidth cropHeight 0)) subjects ->
  scorecropPosition subjects cropX cropY cropWidth cropHeight = 0%float.
Proof.
  intros Hne (Hx & Hy & Hx2 & Hy2) Hall. simpl in *.
  assert (H : forall score,
             fold_left (overlapScore cropX cropY cropWidth cropHeight) subjects score = score).
  { clear Hne. induction Hall as [|s subjects' [(?&?&?&?) Hd] _ IH]; intros score; [done|].
    simpl. unfold disjoint in Hd. simpl in Hd.
    rewrite overlapScore_disjoint; first [apply IH | done | lia]. }
  unfold scorecropPosition. destruct subjects as [|s subjects']; [done|]. apply H.
Qed.

Lemma scorecropPosition_disjoint_witness :
  let subjects := [mkRegion 30 10 10 10 1; mkRegion 0 30 10 10 2] in
  subjects <> [] /\
  exactRegion (mkRegion 0 0 20 20 0) /\
  Forall (fun subject =>
            exactRegion subject /\ disjoint subject (mkRegion 0 0 20 20 0)) subjects /\
  scorecropPosition subjects 0 0 20 20 = 0%float.
Proof.
  intros subjects.
  assert (Hne : subjects <> []) by discriminate.
  assert (Hc : exactRegion (mkRegion 0 0 20 20 0)).
  { unfold exactRegion. simpl. lia. }
  assert (Hall : Forall (fun subject =>
                           exactRegion subject /\ disjoint subject (mkRegion 0 0 20 20 0))
                   subjects).
  { repeat constructor; unfold exactRegion, disjoint; unfold Dx, Dy; simpl; lia. }
  split; [exact Hne|]. split; [exact Hc|]. split; [exact Hall|].
  exact (scorecropPosition_disjoint subjects 0 0 20 20 Hne Hc Hall).
Defined.

(* ===================================================================== *)
(** * C10: GetDominantColors on a region without pixels                     *)
(* ===================================================================== *)

Import colors.

Lemma histogram_empty img region startX startY endX endY :
  sampledRect img region = (startX, startY, endX, endY) ->
  endX <= startX \/ endY <= startY ->
  histogram img region = ∅.
Proof.
  intros Hr Hempty. unfold histogram. rewrite Hr.
  destruct (decide (endY <= startY)) as [Hy|Hy].
  - by rewrite (seqZ_nil startY) by lia.
  - rewrite (seqZ_nil startX) by lia.
    apply fold_left_invariant; done.
Qed.

Lemma iteration_order_empty entries : iteration_order ∅ entries <-> entries = [].
Proof.
  unfold iteration_order. rewrite map_to_list_empty. split.
  - apply Permutation_nil_r.
  - by intros ->.
Qed.

(** C10: when the sampled rectangle, the region cut to the image bounds, has
    no pixel, the histogram is empty, the peak count is 0 and the one list
    [GetDominantColors] can return, and does return, is the empty one. *)
Theorem GetDominantColors_empty_region (d : SubjectDetector) (img : Image)
    (region : Region) (startX startY endX endY : Z) :
  sampledRect img region = (startX, startY, endX, endY) ->
  endX <= startX \/ endY <= startY ->
  histogram img region = ∅ /\
  maxCount (map_to_list (histogram img region)) = 0 /\
  forall colors, GetDominantColors d img region colors <-> colors = [].
Proof.
  intros Hr Hempty. pose proof (histogram_empty _ _ _ _ _ _ Hr Hempty) as Hh.
  split; [done|]. split; [by rewrite Hh, map_to_list_empty|].
  intros colors. unfold GetDominantColors. rewrite Hh. split.
  - intros (first & second & H1 & H2 & ->).
    apply iteration_order_empty in H1 as ->. by apply iteration_order_empty in H2 as ->.
  - intros ->. exists [], []. by rewrite !iteration_order_empty.
Qed.

Lemma GetDominantColors_empty_region_witness :
  let img := Samples.whiteImage 4 4 in
  let outside := mkRegion 10 10 5 5 0 in
  sampledRect img outside = (10, 10, 4, 4) /\
  (histogram img outside = ∅ /\
   maxCount (map_to_list (histogram img outside)) = 0 /\
   forall colors, GetDominantColors New img outside colors <-> colors = []).
Proof.
  assert (H : sampledRect (Samples.whiteImage 4 4) (mkRegion 10 10 5 5 0) = (10, 10, 4, 4)).
  { vm_compute. reflexivity. }
  split; [exact H|].
  apply (GetDominantColors_empty_region New _ _ _ _ _ _ H). left. lia.
Defined.

(** The same for a region of no area inside the image. *)
Lemma GetDominantColors_zero_area :
  forall colors,
    GetDominantColors New (Samples.whiteImage 4 4) (mkRegion 1 1 0 0 0) colors <-> colors = [].
Proof.
  assert (Hh : histogram (Samples.whiteImage 4 4) (mkRegion 1 1 0 0 0) = ∅).
  { eapply histogram_empty; [vm_compute; reflexivity|]. left. lia. }
  intros colors. unfold GetDominantColors. rewrite Hh. split.
  - intros (first & second & H1 & H2 & ->).
    apply iteration_order_empty in H1 as ->. by apply iteration_order_empty in H2 as ->.
  - intros ->. exists [], []. by rewrite !iteration_order_empty.
Qed.

(* ===================================================================== *)
(** * C7: GetDominantColors depends on the order the map is ranged over     *)
(* ===================================================================== *)

Module SamplesC7.

Definition red : RGBA := mkRGBA 65535 0 0 65535.
Definition blue : RGBA := mkRGBA 0 0 65535 65535.

(** Two pixels: a red one and a blue one. *)
Definition redBlue : Image :=
  mkImage (mkRect 0 0 2 1) (fun x _ => if x =? 0 then red else blue).

Definition whole : Region := mkRegion 0 0 2 1 0.

(** Six pixels of six colours that fall into six different buckets. *)
Definition sixColors : Image :=
  mkImage (mkRect 0 0 6 1) (fun x _ => mkRGBA (x * 4096) 0 0 65535).

Definition wholeSix : Region := mkRegion 0 0 6 1 0.

End SamplesC7.

(** C7 fails on the code: with one red and one blue pixel both buckets hold
    one pixel and both orders of the two colours are results of the same
    call.  The code ranges over a Go map, whose order varies between runs. *)
Theorem GetDominantColors_order_dependent :
  let redFirst := [mkColor 240 0 0 255; mkColor 0 0 240 255] in
  let blueFirst := [mkColor 0 0 240 255; mkColor 240 0 0 255] in
  GetDominantColors New SamplesC7.redBlue SamplesC7.whole redFirst /\
  GetDominantColors New SamplesC7.redBlue SamplesC7.whole blueFirst /\
  redFirst <> blueFirst.
Proof.
  assert (E : map_to_list (histogram SamplesC7.redBlue SamplesC7.whole)
              = [(240, 1); (15728640, 1)]) by (vm_compute; reflexivity).
  split; [|split; [|discriminate]].
  - exists [(15728640, 1); (240, 1)], [(15728640, 1); (240, 1)].
    unfold iteration_order. rewrite E.
    split; [apply perm_swap|]. split; [apply perm_swap|]. reflexivity.
  - exists [(240, 1); (15728640, 1)], [(240, 1); (15728640, 1)].
    unfold iteration_order. rewrite E.
    split; [done|]. split; [done|]. reflexivity.
Qed.

(** With six buckets at the threshold only five colours are returned, and
    which one is left out depends on the order as well: a colour whose count
    reaches the threshold is not always emitted. *)
Lemma GetDominantColors_cap_order_dependent :
  exists colors colors',
    GetDominantColors New SamplesC7.sixColors SamplesC7.wholeSix colors /\
    GetDominantColors New SamplesC7.sixColors SamplesC7.wholeSix colors' /\
    length colors = 5%nat /\ length colors' = 5%nat /\
    mkColor 0 0 0 255 ∈ colors /\ mkColor 0 0 0 255 ∉ colors'.
Proof.
  pose (entries := [(5242880, 1); (3145728, 1); (4194304, 1); (2097152, 1); (1048576, 1); (0, 1)]).
  assert (E : map_to_list (histogram SamplesC7.sixColors SamplesC7.wholeSix) = entries)
    by (vm_compute; reflexivity).
  exists (GetDominantColorsIn entries (reverse entries)), (GetDominantColorsIn entries entries).
  split; [|split].
  - exists entries, (reverse entries). unfold iteration_order. rewrite E.
    split; [reflexivity|]. split; [apply reverse_Permutation|reflexivity].
  - exists entries, entries. unfold iteration_order. rewrite E.
    split; [reflexivity|]. split; reflexivity.
  - vm_compute. repeat split.
    + by left.
    + intros H. repeat (apply elem_of_cons in H as [H|H]; [discriminate H|]).
      by apply elem_of_nil in H.
Qed.

(** Whatever the orders, at most five colours are returned. *)
Lemma emitColors_length threshold entries colors :
  (length colors < 5)%nat -> (length (emitColors threshold entries colors) <= 5)%nat.
Proof.
  revert colors. induction entries as [|[k count] entries IH]; intros colors Hc; [simpl; lia|].
  cbn [emitColors]. destruct (threshold <=? count); [|by apply IH].
  destruct (5 <=? length (colors ++ [keyColor k]))%nat eqn:E.
  - rewrite length_app. simpl. lia.
  - apply IH. by apply Nat.leb_gt in E.
Qed.

(* ===================================================================== *)
(** * More of GetDominantColors                                             *)
(* ===================================================================== *)

(** ** The sampled rectangle *)

(** For coordinates that a [float64] holds exactly, the sampled rectangle is
    the intersection of the region with the bounds of the image: the detour
    of the four corners through [float64] changes nothing. *)
Theorem sampledRect_intersection (img : Image) (region : Region) :
  let exact n := - 2 ^ 53 < n < 2 ^ 53 in
  exact (X region) -> exact (Y region) ->
  exact (X region + Width region) -> exact (Y region + Height region) ->
  exact (MinX (Bounds img)) -> exact (MinY (Bounds img)) ->
  exact (MaxX (Bounds img)) -> exact (MaxY (Bounds img)) ->
  sampledRect img region
  = (Z.max (X region) (MinX (Bounds img)), Z.max (Y region) (MinY (Bounds img)),
     Z.min (X region + Width region) (MaxX (Bounds img)),
     Z.min (Y region + Height region) (MaxY (Bounds img))).
Proof.
  intros exact ? ? ? ? ? ? ? ?. unfold sampledRect.
  by rewrite !int_Max_float64, !int_Min_float64.
Qed.

Lemma sampledRect_intersection_witness :
  sampledRect (Samples.whiteImage 1920 1080) (mkRegion (-5) 1000 100 100 0)
  = (Z.max (-5) 0, Z.max 1000 0, Z.min (-5 + 100) 1920, Z.min (1000 + 100) 1080).
Proof.
  apply (sampledRect_intersection (Samples.whiteImage 1920 1080) (mkRegion (-5) 1000 100 100 0));
    unfold Dx, Dy; simpl; lia.
Defined.

(** ** The histogram as a count of keys *)

(** The keys of the sampled pixels, row by row. *)
Definition sampledKeys (img : Image) (region : Region) : list Z :=
  let '(startX, startY, endX, endY) := sampledRect img region in
  y ← seqZ startY (endY - startY);
  (fun x => colorKey (At img x y)) <$> seqZ startX (endX - startX).

Lemma fold_left_fmap {A B C : Type} (f : A -> C -> A) (g : B -> C) (l : list B) (a : A) :
  fold_left f (g <$> l) a = fold_left (fun a b => f a (g b)) l a.
Proof. revert a. induction l as [|b l IH]; intros a; simpl; [done|apply IH]. Qed.

Lemma histogram_sampledKeys img region :
  histogram img region = fold_left increment (sampledKeys img region) ∅.
Proof.
  unfold histogram, sampledKeys. destruct (sampledRect img region) as [[[sx sy] ex] ey].
  generalize (∅ : gmap Z Z). induction (seqZ sy (ey - sy)) as [|y ys IH]; intros m; [done|].
  simpl. rewrite fold_left_app, fold_left_fmap. apply IH.
Qed.

Lemma length_sampledKeys img region startX startY endX endY :
  sampledRect img region = (startX, startY, endX, endY) ->
  length (sampledKeys img region)
  = (Z.to_nat (endX - startX) * Z.to_nat (endY - startY))%nat.
Proof.
  intros Hr. unfold sampledKeys. rewrite Hr.
  rewrite <- (length_seqZ startY (endY - startY)).
  generalize (seqZ startY (endY - startY)). intros ys.
  induction ys as [|y ys IH]; [simpl; lia|].
  cbn [mbind list_bind length]. rewrite length_app, length_fmap, length_seqZ.
  cbn [mbind list_bind] in IH. rewrite IH. lia.
Qed.

(** How often a key occurs in a list. *)
Definition occurrences (key : Z) (keys : list Z) : Z :=
  Z.of_nat (length (List.filter (Z.eqb key) keys)).

Lemma occurrences_nonneg key keys : 0 <= occurrences key keys.
Proof. unfold occurrences. lia. Qed.

Lemma occurrences_cons key k keys :
  occurrences key (k :: keys) = (if key =? k then 1 else 0) + occurrences key keys.
Proof. unfold occurrences. simpl. destruct (key =? k); simpl; lia. Qed.

Lemma lookup_increment colorMap key k :
  increment colorMap k !! key
  = if key =? k then Some (default 0 (colorMap !! k) + 1) else colorMap !! key.
Proof.
  unfold increment. destruct (Z.eqb_spec key k) as [->|Hne].
  - by rewrite lookup_insert_eq.
  - by rewrite lookup_insert_ne.
Qed.

Lemma lookup_fold_increment keys colorMap key :
  fold_left increment keys colorMap !! key
  = if occurrences key keys =? 0 then colorMap !! key
    else Some (default 0 (colorMap !! key) + occurrences key keys).
Proof.
  revert colorMap. induction keys as [|k keys IH]; intros colorMap; [done|].
  simpl. rewrite IH, occurrences_cons, lookup_increment.
  pose proof (occurrences_nonneg key keys).
  destruct (Z.eqb_spec key k) as [->|Hne].
  - destruct (Z.eqb_spec (occurrences k keys) 0) as [E|E].
    + rewrite E. simpl. done.
    + destruct (Z.eqb_spec (1 + occurrences k keys) 0); [lia|]. simpl. f_equal. lia.
  - done.
Qed.

Lemma lookup_histogram img region key :
  histogram img region !! key
  = if occurrences key (sampledKeys img region) =? 0 then None
    else Some (occurrences key (sampledKeys img region)).
Proof. by rewrite histogram_sampledKeys, lookup_fold_increment, lookup_empty. Qed.

Lemma lookup_histogram_Some img region key count :
  histogram img region !! key = Some count ->
  count = occurrences key (sampledKeys img region) /\ 0 < count.
Proof.
  rewrite lookup_histogram.
  pose proof (occurrences_nonneg key (sampledKeys img region)).
  destruct (Z.eqb_spec (occurrences key (sampledKeys img region)) 0) as [E|E]; [done|].
  intros [= <-]. lia.
Qed.

(** Every bucket of the histogram holds the number of sampled pixels with
    its key, and exactly the keys of sampled pixels have a bucket. *)
Theorem histogram_counts (img : Image) (region : Region) (key : Z) :
  (forall count, histogram img region !! key = Some count <->
                 count = occurrences key (sampledKeys img region) /\ 0 < count) /\
  (histogram img region !! key = None <-> key ∉ sampledKeys img region).
Proof.
  rewrite lookup_histogram.
  pose proof (occurrences_nonneg key (sampledKeys img region)) as Hn.
  assert (Hin : occurrences key (sampledKeys img region) = 0 <-> key ∉ sampledKeys img region).
  { unfold occurrences. clear Hn. induction (sampledKeys img region) as [|k keys IH].
    - split; [intros _ H; by apply elem_of_nil in H|done].
    - rewrite not_elem_of_cons. simpl. destruct (Z.eqb_spec key k) as [->|Hne].
      + split; [simpl; lia|by intros [? _]].
      + rewrite IH. split; [done|by intros [_ ?]]. }
  destruct (Z.eqb_spec (occurrences key (sampledKeys img region)) 0) as [E|E]; split.
  - intros count. split; [done|]. lia.
  - split; [intros _; by apply Hin|done].
  - intros count. split; [intros [= <-]; lia|]. by intros [-> _].
  - split; [done|]. intros H. by apply Hin in H.
Qed.

(** ** The two loops over the histogram *)

(** The peak count does not depend on the order of the first loop. *)
Lemma maxCount_max entries acc :
  fold_left (fun maxCount entry => if maxCount <? snd entry then snd entry else maxCount)
    entries acc
  = fold_left (fun maxCount (entry : Z * Z) => Z.max maxCount (snd entry)) entries acc.
Proof.
  revert acc. induction entries as [|e entries IH]; intros acc; [done|].
  simpl. rewrite IH. f_equal. destruct (Z.ltb_spec acc (snd e)); lia.
Qed.

Lemma fold_max_perm (entries entries' : list (Z * Z)) acc :
  entries ≡ₚ entries' ->
  fold_left (fun maxCount (entry : Z * Z) => Z.max maxCount (snd entry)) entries acc
  = fold_left (fun maxCount (entry : Z * Z) => Z.max maxCount (snd entry)) entries' acc.
Proof.
  intros Hp. revert acc. induction Hp; intros acc; simpl.
  - done.
  - apply IHHp.
  - f_equal. lia.
  - by rewrite IHHp1.
Qed.

Lemma maxCount_perm entries entries' :
  entries ≡ₚ entries' -> maxCount entries = maxCount entries'.
Proof. intros Hp. unfold maxCount. rewrite !maxCount_max. by apply fold_max_perm. Qed.

Lemma fold_max_ge (entries : list (Z * Z)) acc :
  acc <= fold_left (fun maxCount (entry : Z * Z) => Z.max maxCount (snd entry)) entries acc /\
  Forall (fun entry =>
            snd entry <= fold_left (fun maxCount (entry : Z * Z) => Z.max maxCount (snd entry))
                           entries acc) entries.
Proof.
  revert acc. induction entries as [|e entries IH]; intros acc; simpl; [split; [lia|done]|].
  destruct (IH (Z.max acc (snd e))) as [H1 H2]. split; [lia|].
  constructor; [lia|done].
Qed.

Lemma fold_max_attained (entries : list (Z * Z)) acc :
  let m := fold_left (fun maxCount (entry : Z * Z) => Z.max maxCount (snd entry)) entries acc in
  m = acc \/ exists entry, entry ∈ entries /\ snd entry = m.
Proof.
  revert acc. induction entries as [|e entries IH]; intros acc; simpl; [by left|].
  destruct (IH (Z.max acc (snd e))) as [H|(e' & He' & H)].
  - destruct (Z.max_spec acc (snd e)) as [[_ E]|[_ E]].
    + right. exists e. split; [by left|]. simpl in *. lia.
    + left. simpl in *. lia.
  - right. exists e'. split; [by right|done].
Qed.

(** What the second loop appends when it is not cut short: the colours of
    the entries at or above the threshold. *)
Definition qualifying (threshold : Z) (entries : list (Z * Z)) : list (Z * Z) :=
  List.filter (fun entry => threshold <=? snd entry) entries.

Lemma emitColors_qualifying threshold entries colors :
  (length colors + length (qualifying threshold entries) <= 5)%nat ->
  emitColors threshold entries colors
  = colors ++ (keyColor ∘ fst <$> qualifying threshold entries).
Proof.
  revert colors. induction entries as [|[k count] entries IH]; intros colors Hl.
  - simpl. by rewrite app_nil_r.
  - cbn [emitColors]. unfold qualifying in *. cbn [List.filter snd] in *.
    destruct (threshold <=? count) eqn:E; [|by apply IH].
    cbn [length] in Hl.
    destruct (5 <=? length (colors ++ [keyColor k]))%nat eqn:E5.
    + apply Nat.leb_le in E5. rewrite length_app in E5. simpl in E5.
      destruct (List.filter _ entries) as [|? ?]; [|simpl in Hl; lia].
      simpl. done.
    + rewrite IH.
      * simpl. by rewrite <- app_assoc.
      * rewrite length_app. simpl. lia.
Qed.

Lemma emitColors_prefix threshold entries colors :
  exists more, emitColors threshold entries colors = colors ++ more.
Proof.
  revert colors. induction entries as [|[k count] entries IH]; intros colors.
  - exists []. simpl. by rewrite app_nil_r.
  - cbn [emitColors]. destruct (threshold <=? count); [|apply IH].
    destruct (5 <=? _)%nat; [by eexists|].
    destruct (IH (colors ++ [keyColor k])) as [more ->].
    exists (keyColor k :: more). by rewrite <- app_assoc.
Qed.

Lemma emitColors_nonempty threshold entries colors entry :
  entry ∈ entries -> threshold <= snd entry ->
  emitColors threshold entries colors <> [].
Proof.
  revert colors. induction entries as [|[k count] entries IH]; intros colors Hin Ht.
  - by apply elem_of_nil in Hin.
  - cbn [emitColors]. destruct (Z.leb_spec threshold count) as [Hc|Hc].
    + destruct (5 <=? _)%nat.
      * by destruct colors.
      * destruct (emitColors_prefix threshold entries (colors ++ [keyColor k])) as [more ->].
        by destruct colors.
    + apply elem_of_cons in Hin as [->|Hin]; [simpl in Ht; lia|]. by apply IH.
Qed.

Lemma qualifying_perm threshold entries entries' :
  entries ≡ₚ entries' -> qualifying threshold entries ≡ₚ qualifying threshold entries'.
Proof.
  intros Hp. unfold qualifying. induction Hp; simpl.
  - done.
  - destruct (threshold <=? snd x); [by constructor|done].
  - destruct (threshold <=? snd x), (threshold <=? snd y); try done. apply perm_swap.
  - by etrans.
Qed.

(** ** What GetDominantColors returns *)

(** One of the lists a call may return: both loops in the order of
    [map_to_list]. *)
Lemma GetDominantColors_run d img region :
  GetDominantColors d img region
    (GetDominantColorsIn (map_to_list (histogram img region))
       (map_to_list (histogram img region))).
Proof.
  exists (map_to_list (histogram img region)), (map_to_list (histogram img region)).
  unfold iteration_order. repeat split; reflexivity.
Qed.

(** Never more than five colours, in whatever order the map is ranged
    over. *)
Theorem GetDominantColors_at_most_five (d : SubjectDetector) (img : Image)
    (region : Region) (colors : list color_RGBA) :
  GetDominantColors d img region colors -> (length colors <= 5)%nat.
Proof.
  intros (first & second & _ & _ & ->). apply emitColors_length. simpl. lia.
Qed.

Lemma GetDominantColors_at_most_five_witness :
  let entries := map_to_list (histogram SamplesC7.sixColors SamplesC7.wholeSix) in
  length entries = 6%nat /\
  GetDominantColors New SamplesC7.sixColors SamplesC7.wholeSix
    (GetDominantColorsIn entries entries) /\
  (length (GetDominantColorsIn entries entries) <= 5)%nat.
Proof.
  intros entries. split; [vm_compute; reflexivity|].
  pose proof (GetDominantColors_run New SamplesC7.sixColors SamplesC7.wholeSix) as H.
  split; [exact H|].
  exact (GetDominantColors_at_most_five New SamplesC7.sixColors SamplesC7.wholeSix _ H).
Defined.

Lemma histogram_entries_positive img region entries :
  iteration_order (histogram img region) entries ->
  Forall (fun entry => 0 < snd entry) entries.
Proof.
  intros Hp. rewrite Hp. apply Forall_forall. intros [k c] Hin.
  apply elem_of_map_to_list in Hin. apply lookup_histogram_Some in Hin. simpl. lia.
Qed.

(** At least one colour when at least one pixel is sampled. *)
Theorem GetDominantColors_nonempty (d : SubjectDetector) (img : Image) (region : Region)
    (startX startY endX endY : Z) (colors : list color_RGBA) :
  sampledRect img region = (startX, startY, endX, endY) ->
  startX < endX -> startY < endY ->
  GetDominantColors d img region colors -> colors <> [].
Proof.
  intros Hr Hx Hy (first & second & H1 & H2 & ->).
  assert (Hne : sampledKeys img region <> []).
  { intros E. apply (f_equal length) in E.
    rewrite (length_sampledKeys _ _ _ _ _ _ Hr) in E. simpl in E. nia. }
  destruct (sampledKeys img region) as [|k keys] eqn:Ek; [done|].
  assert (Hk : is_Some (histogram img region !! k)).
  { rewrite histogram_sampledKeys, Ek, lookup_fold_increment, occurrences_cons, Z.eqb_refl.
    pose proof (occurrences_nonneg k keys).
    destruct (Z.eqb_spec (1 + occurrences k keys) 0); [lia|]. by eexists. }
  destruct Hk as [c Hc].
  pose proof (histogram_entries_positive _ _ _ H1) as Hpos1.
  unfold GetDominantColorsIn, maxCount. rewrite maxCount_max.
  destruct (fold_max_attained first 0) as [E|(e & He & E)].
  - (* the peak is 0: impossible, the bucket of [k] is counted *)
    pose proof (fold_max_ge first 0) as [_ Hge]. rewrite E in Hge.
    assert (Hin : (k, c) ∈ first) by (rewrite H1; by apply elem_of_map_to_list).
    rewrite Forall_forall in Hge, Hpos1.
    specialize (Hge _ Hin). specialize (Hpos1 _ Hin). simpl in *. lia.
  - rewrite <- E. apply (emitColors_nonempty _ _ _ e).
    + rewrite H2, <- H1. done.
    + rewrite Forall_forall in Hpos1. specialize (Hpos1 _ He).
      rewrite Z.quot_div_nonneg by lia.
      apply Z.div_le_upper_bound; lia.
Qed.

Lemma GetDominantColors_nonempty_witness :
  let entries := map_to_list (histogram SamplesC7.redBlue SamplesC7.whole) in
  sampledRect SamplesC7.redBlue SamplesC7.whole = (0, 0, 2, 1) /\
  GetDominantColors New SamplesC7.redBlue SamplesC7.whole
    (GetDominantColorsIn entries entries) /\
  GetDominantColorsIn entries entries <> [].
Proof.
  intros entries.
  assert (Hr : sampledRect SamplesC7.redBlue SamplesC7.whole = (0, 0, 2, 1)).
  { vm_compute. reflexivity. }
  pose proof (GetDominantColors_run New SamplesC7.redBlue SamplesC7.whole) as H.
  split; [exact Hr|]. split; [exact H|].
  apply (GetDominantColors_nonempty New SamplesC7.redBlue SamplesC7.whole 0 0 2 1 _ Hr);
    [lia|lia|exact H].
Defined.

(** With at most five buckets at or above the threshold, every call returns
    the colours of exactly those buckets: two results differ only in their
    order. *)
Theorem GetDominantColors_up_to_order (d : SubjectDetector) (img : Image) (region : Region)
    (colors : list color_RGBA) :
  let entries := map_to_list (histogram img region) in
  let threshold := Z.quot (maxCount entries) 4 in
  (length (qualifying threshold entries) <= 5)%nat ->
  GetDominantColors d img region colors ->
  colors ≡ₚ (keyColor ∘ fst <$> qualifying threshold entries).
Proof.
  intros entries threshold Hl (first & second & H1 & H2 & ->).
  unfold GetDominantColorsIn. rewrite (maxCount_perm first entries H1). fold threshold.
  pose proof (qualifying_perm threshold _ _ H2) as Hq. fold entries in Hq.
  rewrite emitColors_qualifying.
  - simpl. by rewrite Hq.
  - simpl. by rewrite Hq.
Qed.

Lemma GetDominantColors_up_to_order_witness :
  let entries := map_to_list (histogram SamplesC7.redBlue SamplesC7.whole) in
  let threshold := Z.quot (maxCount entries) 4 in
  (length (qualifying threshold entries) <= 5)%nat /\
  GetDominantColors New SamplesC7.redBlue SamplesC7.whole
    (GetDominantColorsIn entries entries) /\
  GetDominantColorsIn entries entries ≡ₚ (keyColor ∘ fst <$> qualifying threshold entries).
Proof.
  intros entries threshold.
  assert (Hl : (length (qualifying threshold entries) <= 5)%nat).
  { vm_compute. lia. }
  pose proof (GetDominantColors_run New SamplesC7.redBlue SamplesC7.whole) as H.
  split; [exact Hl|]. split; [exact H|].
  exact (GetDominantColors_up_to_order New SamplesC7.redBlue SamplesC7.whole _ Hl H).
Defined.

(** A region whose sampled pixels all fall into one bucket yields that one
    colour and nothing else, whatever the order of the loops. *)
Theorem GetDominantColors_single_colour (d : SubjectDetector) (img : Image) (region : Region)
    (startX startY endX endY key : Z) (colors : list color_RGBA) :
  sampledRect img region = (startX, startY, endX, endY) ->
  startX < endX -> startY < endY ->
  (forall x y, startX <= x < endX -> startY <= y < endY -> colorKey (At img x y) = key) ->
  GetDominantColors d img region colors <-> colors = [keyColor key].
Proof.
  intros Hr Hx Hy Hkey.
  assert (Hall : Forall (eq key) (sampledKeys img region)).
  { unfold sampledKeys. rewrite Hr. apply Forall_forall. intros k Hk.
    apply list_elem_of_bind in Hk as (y & Hk & Hy').
    apply list_elem_of_fmap in Hk as (x & -> & Hx').
    apply elem_of_seqZ in Hx', Hy'. symmetry. apply Hkey; lia. }
  set (n := occurrences key (sampledKeys img region)).
  assert (Hn : 0 < n).
  { subst n. unfold occurrences.
    assert (E : List.filter (Z.eqb key) (sampledKeys img region) = sampledKeys img region).
    { induction Hall as [|k ks <- _ IH]; simpl; [done|]. by rewrite Z.eqb_refl, IH. }
    rewrite E, (length_sampledKeys _ _ _ _ _ _ Hr). nia. }
  assert (Hm : histogram img region = {[key := n]}).
  { apply map_eq. intros k. rewrite lookup_histogram.
    destruct (decide (k = key)) as [->|Hne].
    - rewrite lookup_singleton_eq. fold n.
      destruct (Z.eqb_spec n 0); [lia|done].
    - rewrite lookup_singleton_ne by done.
      assert (E : List.filter (Z.eqb k) (sampledKeys img region) = []).
      { clear -Hall Hne. induction Hall as [|k' ks <- _ IH]; simpl; [done|].
        destruct (Z.eqb_spec k key); [done|]. apply IH. }
      unfold occurrences. by rewrite E. }
  assert (Hone : forall entries, iteration_order (histogram img region) entries <->
                                 entries = [(key, n)]).
  { intros entries. unfold iteration_order. rewrite Hm, map_to_list_singleton. split.
    - apply Permutation_singleton_r.
    - by intros ->. }
  assert (Hrun : GetDominantColorsIn [(key, n)] [(key, n)] = [keyColor key]).
  { unfold GetDominantColorsIn, maxCount. simpl.
    assert (E0 : (0 <? n) = true) by (apply Z.ltb_lt; lia). rewrite E0.
    assert (E1 : (Z.quot n 4 <=? n) = true).
    { apply Z.leb_le. rewrite Z.quot_div_nonneg by lia. apply Z.div_le_upper_bound; lia. }
    by rewrite E1. }
  split.
  - intros (first & second & H1 & H2 & ->).
    apply Hone in H1 as ->. apply Hone in H2 as ->. done.
  - intros ->. exists [(key, n)], [(key, n)]. by rewrite !Hone.
Qed.

Lemma GetDominantColors_single_colour_witness :
  let img := Samples.whiteImage 4 4 in
  let region := mkRegion 1 1 2 3 0 in
  sampledRect img region = (1, 1, 3, 4) /\
  (forall x y, 1 <= x < 3 -> 1 <= y < 4 -> colorKey (At img x y) = 15790320) /\
  forall colors,
    GetDominantColors New img region colors <-> colors = [mkColor 240 240 240 255].
Proof.
  intros img region.
  assert (Hr : sampledRect img region = (1, 1, 3, 4)) by (vm_compute; reflexivity).
  assert (Hkey : forall x y, 1 <= x < 3 -> 1 <= y < 4 -> colorKey (At img x y) = 15790320).
  { intros x y _ _. vm_compute. reflexivity. }
  split; [exact Hr|]. split; [exact Hkey|]. intros colors.
  apply (GetDominantColors_single_colour New img region 1 1 3 4 15790320 colors Hr);
    [lia|lia|exact Hkey].
Defined.

(** ** Quantising and back *)

Definition channelLevels : list Z := seqZ 0 16.

Lemma land_240_levels :
  forallb (fun x => Z.land x 240 =? 16 * (x / 16)) (seqZ 0 256) = true.
Proof. vm_compute. reflexivity. Qed.

Lemma key_levels_checked :
  forallb (fun i =>
    forallb (fun j =>
      forallb (fun k =>
        let key := Z.lor (Z.lor (uint32 (Z.shiftl (16 * i) 16)) (uint32 (Z.shiftl (16 * j) 8)))
                         (16 * k) in
        (uint8 (Z.land (Z.shiftr key 16) 255) =? 16 * i)
        && (uint8 (Z.land (Z.shiftr key 8) 255) =? 16 * j)
        && (uint8 (Z.land key 255) =? 16 * k))
        channelLevels) channelLevels) channelLevels = true.
Proof. vm_compute. reflexivity. Qed.

Lemma quantised_channel v :
  0 <= v < 65536 ->
  Z.land (Z.shiftr v 8) 240 = 16 * (v / 4096) /\ 0 <= v / 4096 < 16.
Proof.
  intros Hv. rewrite Z.shiftr_div_pow2 by lia. change (2 ^ 8) with 256.
  assert (Hx : 0 <= v / 256 < 256).
  { split; [apply Z.div_pos; lia|apply Z.div_lt_upper_bound; lia]. }
  pose proof land_240_levels as H. rewrite forallb_forall in H.
  specialize (H (v / 256)). rewrite Z.eqb_eq in H.
  rewrite H by (apply list_elem_of_In, elem_of_seqZ; lia).
  rewrite Z.div_div by lia. change (256 * 16) with 4096. split; [done|].
  split; [apply Z.div_pos; lia|apply Z.div_lt_upper_bound; lia].
Qed.

(** The colour emitted for the bucket of a pixel has the pixel's red, green
    and blue cut to the four top bits of their 8-bit values, and full alpha:
    packing the key and taking it apart loses nothing else. *)
Theorem keyColor_colorKey (c : RGBA) :
  0 <= red c < 65536 -> 0 <= green c < 65536 -> 0 <= blue c < 65536 ->
  keyColor (colorKey c)
  = mkColor (16 * (red c / 4096)) (16 * (green c / 4096)) (16 * (blue c / 4096)) 255.
Proof.
  intros Hr Hg Hb. unfold colorKey, keyColor.
  destruct (quantised_channel _ Hr) as [-> Hi].
  destruct (quantised_channel _ Hg) as [-> Hj].
  destruct (quantised_channel _ Hb) as [-> Hk].
  assert (Hin : forall v, 0 <= v < 16 -> In v channelLevels).
  { intros v Hv. apply list_elem_of_In, elem_of_seqZ. lia. }
  pose proof key_levels_checked as H.
  rewrite forallb_forall in H. specialize (H _ (Hin _ Hi)).
  rewrite forallb_forall in H. specialize (H _ (Hin _ Hj)).
  rewrite forallb_forall in H. specialize (H _ (Hin _ Hk)).
  cbv zeta in H.
  apply andb_true_iff in H as [H H3]. apply andb_true_iff in H as [H1 H2].
  apply Z.eqb_eq in H1, H2, H3. by rewrite H1, H2, H3.
Qed.

Lemma keyColor_colorKey_witness :
  keyColor (colorKey (mkRGBA 65535 4660 43981 32768))
  = mkColor (16 * (65535 / 4096)) (16 * (4660 / 4096)) (16 * (43981 / 4096)) 255.
Proof.
  apply (keyColor_colorKey (mkRGBA 65535 4660 43981 32768)); unfold Dx, Dy; simpl; lia.
Defined.

(* ===================================================================== *)
(** * C8: the dimension check of CropToRatio                                *)
(* ===================================================================== *)

Import cropper.

Module SamplesC8.
(** Bounds whose corners are out of order: width -1, height 1. *)
Definition negativeWidth : Image :=
  mkImage (mkRect 0 0 (-1) 1) (fun _ _ => Samples.black).
End SamplesC8.

(** C8, as stated, fails: the check compares the dimensions with zero only.
    An image of width -1 and height 1 passes it, and the call ends in the
    panic of the saliency map's allocation, not in the error. *)
Lemma CropToRatio_negative_width :
  let img := SamplesC8.negativeWidth in
  Dx (Bounds img) = -1 /\ Dy (Bounds img) = 1 /\
  result (CropToRatio img 1 cropper.New) = Panic "makeslice: len out of range" /\
  result (CropToRatio img 1 cropper.New) <> Err InvalidImageDimensions.
Proof.
  vm_compute. repeat split. discriminate.
Qed.

(** C8, amended: for every image whose width or height is zero, [CropToRatio]
    returns the error "invalid image dimensions", whatever the detector and
    the ratio: the check precedes the call of [FindBestCropRegion], where
    the ratio arithmetic is, and no region is produced. *)
Theorem CropToRatio_zero_dimension (c : SmartCropper) (img : Image) (targetRatio : float64) :
  Dx (Bounds img) = 0 \/ Dy (Bounds img) = 0 ->
  result (CropToRatio img targetRatio c) = Err InvalidImageDimensions.
Proof.
  intros H. unfold CropToRatio, result, mbind, method_bind, receiver. simpl.
  assert (E : (Dx (Bounds img) =? 0) || (Dy (Bounds img) =? 0) = true).
  { apply orb_true_iff. rewrite !Z.eqb_eq. done. }
  by rewrite E.
Qed.

Lemma CropToRatio_zero_dimension_witness :
  result (CropToRatio (Samples.blackImage 0 5) 1 cropper.New) = Err InvalidImageDimensions.
Proof.
  apply (CropToRatio_zero_dimension cropper.New (Samples.blackImage 0 5) 1).
  left. reflexivity.
Defined.

(** [FindBestCropRegion] itself has no such check: called on an empty image
    it divides 0 by 0 and returns an empty region with score 1. *)
Lemma FindBestCropRegion_empty_image :
  FindBestCropRegion vision.New (Samples.blackImage 0 0) 1 = Ok (mkRegion 0 0 0 0 1).
Proof. vm_compute. reflexivity. Qed.

(** A negative dimension beside a non-zero one always ends in the panic. *)
Lemma CropToRatio_negative_dimension (c : SmartCropper) (img : Image) (targetRatio : float64) :
  Dx (Bounds img) <> 0 -> Dy (Bounds img) <> 0 ->
  Dx (Bounds img) < 0 \/ Dy (Bounds img) < 0 ->
  result (CropToRatio img targetRatio c) = Panic "makeslice: len out of range".
Proof.
  intros Hx Hy Hneg. unfold CropToRatio, result, mbind, method_bind, receiver. simpl.
  assert (E : (Dx (Bounds img) =? 0) || (Dy (Bounds img) =? 0) = false).
  { apply orb_false_iff. rewrite !Z.eqb_neq. done. }
  rewrite E. simpl.
  unfold FindBestCropRegion, DetectSubjects, rankedRegions, calculateSaliencyMap.
  destruct (Dy (Bounds img) <? 0) eqn:Eh; [done|].
  apply Z.ltb_ge in Eh.
  assert (E1 : (0 <? Dy (Bounds img)) = true) by (apply Z.ltb_lt; lia).
  assert (E2 : (Dx (Bounds img) <? 0) = true) by (apply Z.ltb_lt; lia).
  by rewrite E1, E2.
Qed.

(* ===================================================================== *)
(** * C3: the crop quality                                                  *)
(* ===================================================================== *)


(** A NaN passes both comparisons. *)
Lemma clampQuality_nan : clampQuality nan = nan.
Proof. reflexivity. Qed.

(* ===================================================================== *)
(** * C9: the configuration during and after the calls                      *)
(* ===================================================================== *)

(** A method that leaves the cropper as it found it and, while it runs,
    assigns nothing but padding ratios. *)
Definition restoring {A : Type} (m : method A) : Prop :=
  forall c, after (m c) = c /\
            Forall (fun c' => exists p, c' = withPaddingRatio c p) (during (m c)).

Lemma restoring_ret {A : Type} (a : A) : restoring (mret a).
Proof. intros c. split; [done|constructor]. Qed.

Lemma restoring_receiver : restoring receiver.
Proof. intros c. split; [done|constructor]. Qed.

Lemma restoring_bind {A B : Type} (m : method A) (k : A -> method B) :
  restoring m -> (forall a, restoring (k a)) -> restoring (m ≫= k).
Proof.
  intros Hm Hk c. unfold mbind, method_bind, after, during.
  destruct (m c) as [[a c1] w1] eqn:Em.
  destruct (k a c1) as [[b c2] w2] eqn:Ek. simpl.
  destruct (Hm c) as [Hm1 Hm2]. rewrite Em in Hm1, Hm2.
  unfold after, during in Hm1, Hm2. simpl in Hm1, Hm2. subst c1.
  destruct (Hk a c) as [Hk1 Hk2]. rewrite Ek in Hk1, Hk2.
  unfold after, during in Hk1, Hk2. simpl in Hk1, Hk2.
  split; [done|]. by apply Forall_app.
Qed.

Lemma withPaddingRatio_restore c p :
  withPaddingRatio (withPaddingRatio c p) (PaddingRatio (cropper.config c)) = c.
Proof. by destruct c as [d [? ? ? ?]]. Qed.

Lemma withPaddingRatio_twice c p q :
  withPaddingRatio (withPaddingRatio c p) q = withPaddingRatio c q.
Proof. by destruct c as [d [? ? ? ?]]. Qed.

Lemma restoring_CropToRatio img targetRatio : restoring (CropToRatio img targetRatio).
Proof.
  unfold CropToRatio. apply restoring_bind; [apply restoring_receiver|].
  intros c. destruct (_ || _); apply restoring_ret.
Qed.

Lemma restoring_CropToAspectRatio img aspectRatio :
  restoring (CropToAspectRatio img aspectRatio).
Proof. apply restoring_CropToRatio. Qed.

Lemma restoring_cropEach img ratios results : restoring (cropEach img ratios results).
Proof.
  revert results. induction ratios as [|ratio rest IH]; intros results; simpl.
  - apply restoring_ret.
  - apply restoring_bind; [apply restoring_CropToAspectRatio|].
    intros [res|e|m]; [apply IH|apply restoring_ret..].
Qed.

Lemma restoring_CropToSize img targetWidth targetHeight :
  restoring (CropToSize img targetWidth targetHeight).
Proof.
  unfold CropToSize. apply restoring_bind; [apply restoring_receiver|].
  intros c. destruct (_ && _); [apply restoring_ret|apply restoring_CropToRatio].
Qed.

Lemma restoring_CropWithPadding img targetRatio paddingRatio :
  restoring (CropWithPadding img targetRatio paddingRatio).
Proof.
  intros c. unfold CropWithPadding, mbind, method_bind, receiver, assign, mret, method_ret.
  destruct (CropToRatio img targetRatio (withPaddingRatio c paddingRatio))
    as [[r c1] w1] eqn:E.
  destruct (restoring_CropToRatio img targetRatio (withPaddingRatio c paddingRatio))
    as [H1 H2].
  rewrite E in H1, H2. unfold after, during in *. simpl in *. subst c1.
  rewrite withPaddingRatio_restore. split; [done|].
  constructor; [by eexists|].
  apply Forall_app; split.
  - eapply Forall_impl; [exact H2|]. intros c' [p ->].
    exists p. apply withPaddingRatio_twice.
  - constructor; [|constructor]. exists (PaddingRatio (cropper.config c)).
    by destruct c as [d [? ? ? ?]].
Qed.

Lemma restoring_collectCrops img ratios results : restoring (collectCrops img ratios results).
Proof.
  revert results. induction ratios as [|ratio rest IH]; intros results; simpl.
  - apply restoring_ret.
  - apply restoring_bind; [apply restoring_receiver|]. intros c.
    apply restoring_bind; [apply restoring_CropToAspectRatio|].
    intros [res|e|m]; [destruct (PrimFloat.leb _ _)|..]; try apply IH. apply restoring_ret.
Qed.

Lemma restoring_SmartResize img targetWidth targetHeight :
  restoring (SmartResize img targetWidth targetHeight).
Proof.
  unfold SmartResize. destruct (_ && _); [apply restoring_ret|].
  destruct (PrimFloat.ltb _ _); [apply restoring_ret|].
  apply restoring_bind; [apply restoring_CropToRatio|]. intros r. apply restoring_ret.
Qed.

Lemma restoring_perform op : restoring (perform op).
Proof.
  destruct op; simpl; (apply restoring_bind; [|intros ?; apply restoring_ret]).
  - apply restoring_CropToAspectRatio.
  - apply restoring_CropToRatio.
  - apply restoring_cropEach.
  - apply restoring_CropToSize.
  - apply restoring_CropWithPadding.
  - apply restoring_collectCrops.
  - apply restoring_SmartResize.
Qed.

Lemma restoring_performAll ops : restoring (performAll ops).
Proof.
  induction ops as [|op ops IH]; simpl; [apply restoring_ret|].
  apply restoring_bind; [apply restoring_perform|done].
Qed.

(** C9, as stated, fails: during [CropWithPadding] the stored padding ratio
    is the argument of the call, 0.5 in the sample, not the 0.1 the cropper
    was built with. *)
Lemma CropWithPadding_assigns_config :
  let c := cropper.New in
  let run := CropWithPadding (Samples.blackImage 60 40) 1 0.5 c in
  during run = [withPaddingRatio c 0.5; c] /\
  PaddingRatio (cropper.config (withPaddingRatio c 0.5)) = 0.5%float /\
  PaddingRatio (cropper.config c) = 0.1%float /\
  ~ Forall (fun c' => cropper.config c' = cropper.config c) (during run).
Proof.
  intros c run.
  assert (E : during run = [withPaddingRatio c 0.5; c]) by (vm_compute; reflexivity).
  split; [done|]. split; [done|]. split; [done|].
  rewrite E. intros H. apply Forall_cons in H as [H _].
  apply (f_equal PaddingRatio) in H. simpl in H.
  assert (Hlt : PrimFloat.ltb 0.1 0.5 = true) by reflexivity.
  rewrite H in Hlt. vm_compute in Hlt. discriminate.
Qed.

(** C9, amended: after any sequence of calls on a cropper, the cropper, its
    configuration and its detector included, is what it was before; during
    the calls the only field ever assigned is the padding ratio (by
    [CropWithPadding], which restores it when it returns, also when the
    crop fails or panics). *)
Theorem performAll_restores_config (ops : list call) (c : SmartCropper) :
  after (performAll ops c) = c /\
  Forall (fun c' =>
            detector c' = detector c /\
            PreserveAspectRatio (cropper.config c') = PreserveAspectRatio (cropper.config c) /\
            AllowUpscaling (cropper.config c') = AllowUpscaling (cropper.config c) /\
            QualityThreshold (cropper.config c') = QualityThreshold (cropper.config c))
    (during (performAll ops c)).
Proof.
  destruct (restoring_performAll ops c) as [H1 H2]. split; [done|].
  eapply Forall_impl; [exact H2|]. by intros c' [p ->].
Qed.

(** A score that is not a number goes through the two comparisons. *)
Lemma calculateCropQuality_nan_score :
  calculateCropQuality (Samples.blackImage 100 100) (mkRegion 0 0 50 50 nan) 1 = nan.
Proof. vm_compute. reflexivity. Qed.



(* ===================================================================== *)
(** * More of package [cropper]                                             *)
(* ===================================================================== *)

(** ** Methods that write nothing *)

(** A read-only method: it writes nothing and leaves the cropper alone. *)
Definition readonly {A : Type} (m : method A) : Prop :=
  forall c, after (m c) = c /\ during (m c) = [].

Lemma readonly_ret {A : Type} (a : A) : readonly (mret a).
Proof. by intros c. Qed.

Lemma readonly_receiver : readonly receiver.
Proof. by intros c. Qed.

Lemma readonly_bind {A B : Type} (m : method A) (k : A -> method B) :
  readonly m -> (forall a, readonly (k a)) -> readonly (m ≫= k).
Proof.
  intros Hm Hk c. unfold mbind, method_bind, after, during.
  destruct (m c) as [[a c1] w1] eqn:Em.
  destruct (k a c1) as [[b c2] w2] eqn:Ek. simpl.
  destruct (Hm c) as [Hm1 Hm2]. rewrite Em in Hm1, Hm2.
  unfold after, during in Hm1, Hm2. simpl in Hm1, Hm2. subst c1 w1.
  destruct (Hk a c) as [Hk1 Hk2]. rewrite Ek in Hk1, Hk2.
  unfold after, during in Hk1, Hk2. simpl in Hk1, Hk2. by subst.
Qed.

(** The result of a bind whose first part is read-only. *)
Lemma result_bind {A B : Type} (m : method A) (k : A -> method B) c :
  readonly m -> result ((m ≫= k) c) = result (k (result (m c)) c).
Proof.
  intros Hm. unfold mbind, method_bind, result.
  destruct (Hm c) as [H1 _]. unfold after in H1.
  destruct (m c) as [[a c1] w1]. simpl in *. subst c1.
  by destruct (k a c) as [[b c2] w2].
Qed.

Lemma readonly_CropToRatio img targetRatio : readonly (CropToRatio img targetRatio).
Proof.
  unfold CropToRatio. apply readonly_bind; [apply readonly_receiver|].
  intros c. destruct (_ || _); apply readonly_ret.
Qed.

Lemma readonly_CropToAspectRatio img aspectRatio : readonly (CropToAspectRatio img aspectRatio).
Proof. apply readonly_CropToRatio. Qed.

(** ** CropToRatio *)

Lemma CropToRatio_guard c img targetRatio :
  Dx (Bounds img) = 0 \/ Dy (Bounds img) = 0 ->
  CropToRatio img targetRatio c = (Err InvalidImageDimensions, c, []).
Proof.
  intros H. unfold CropToRatio, mbind, method_bind, receiver.
  assert (E : (Dx (Bounds img) =? 0) || (Dy (Bounds img) =? 0) = true).
  { apply orb_true_iff. rewrite !Z.eqb_eq. done. }
  by rewrite E.
Qed.

Lemma CropToRatio_run c img targetRatio :
  0 < Dx (Bounds img) -> 0 < Dy (Bounds img) ->
  exists region,
    vision.FindBestCropRegion (detector c) img targetRatio = Ok region /\
    CropToRatio img targetRatio c
    = (Ok (mkCropResult (cropImageToRegion img region) region targetRatio
             (calculateCropQuality img region targetRatio)), c, []).
Proof.
  intros Hw Hh.
  destruct (DetectSubjects_ok (detector c) img) as [subjects Hs]; [lia|lia|].
  unfold CropToRatio, mbind, method_bind, receiver. simpl.
  assert (E : (Dx (Bounds img) =? 0) || (Dy (Bounds img) =? 0) = false).
  { apply orb_false_iff. rewrite !Z.eqb_neq. lia. }
  rewrite E. simpl. unfold vision.FindBestCropRegion. rewrite Hs. simpl.
  destruct (cropDimensions _ _ _) as [cw ch]. by eexists.
Qed.

(** The three ways a call of [CropToRatio] can end. *)
Lemma CropToRatio_cases c img targetRatio :
  ((Dx (Bounds img) = 0 \/ Dy (Bounds img) = 0) /\
   result (CropToRatio img targetRatio c) = Err InvalidImageDimensions) \/
  (0 < Dx (Bounds img) /\ 0 < Dy (Bounds img) /\
   exists res, result (CropToRatio img targetRatio c) = Ok res) \/
  (Dx (Bounds img) <> 0 /\ Dy (Bounds img) <> 0 /\
   (Dx (Bounds img) < 0 \/ Dy (Bounds img) < 0) /\
   result (CropToRatio img targetRatio c) = Panic "makeslice: len out of range").
Proof.
  destruct (Z.eq_dec (Dx (Bounds img)) 0) as [Ex|Ex];
    [left; split; [by left|by rewrite CropToRatio_guard by (by left)]|].
  destruct (Z.eq_dec (Dy (Bounds img)) 0) as [Ey|Ey];
    [left; split; [by right|by rewrite CropToRatio_guard by (by right)]|].
  right. destruct (Z_lt_le_dec (Dx (Bounds img)) 0) as [Hx|Hx];
    [right; repeat split; try done; [by left|apply CropToRatio_negative_dimension; tauto]|].
  destruct (Z_lt_le_dec (Dy (Bounds img)) 0) as [Hy|Hy];
    [right; repeat split; try done; [by right|apply CropToRatio_negative_dimension; tauto]|].
  left. split; [lia|]. split; [lia|].
  destruct (CropToRatio_run c img targetRatio) as (region & _ & ->); [lia|lia|].
  by eexists.
Qed.

(** On an image of positive width and height a crop request always
    succeeds; its result carries the region [FindBestCropRegion] found, the
    requested ratio, the quality of that region and the view of the image
    cut to it, and the cropper is not written. *)
Theorem CropToRatio_succeeds (c : SmartCropper) (img : Image) (targetRatio : float64) :
  0 < Dx (Bounds img) -> 0 < Dy (Bounds img) ->
  exists res,
    result (CropToRatio img targetRatio c) = Ok res /\
    vision.FindBestCropRegion (detector c) img targetRatio = Ok (resultRegion res) /\
    resultAspectRatio res = targetRatio /\
    Quality res = calculateCropQuality img (resultRegion res) targetRatio /\
    resultImage res = cropImageToRegion img (resultRegion res) /\
    after (CropToRatio img targetRatio c) = c /\ during (CropToRatio img targetRatio c) = [].
Proof.
  intros Hw Hh. destruct (CropToRatio_run c img targetRatio Hw Hh) as (region & Hr & ->).
  eexists. repeat split. exact Hr.
Qed.

Lemma CropToRatio_succeeds_witness :
  let img := Samples.patchImage 60 40 20 10 8 8 in
  exists res,
    result (CropToRatio img 1 New) = Ok res /\
    vision.FindBestCropRegion (detector New) img 1 = Ok (resultRegion res) /\
    resultAspectRatio res = 1%float /\
    Quality res = calculateCropQuality img (resultRegion res) 1 /\
    resultImage res = cropImageToRegion img (resultRegion res) /\
    after (CropToRatio img 1 New) = New /\ during (CropToRatio img 1 New) = [].
Proof.
  intros img. apply (CropToRatio_succeeds New img 1); unfold Dx, Dy; simpl; lia.
Defined.

(** The only error [CropToRatio] returns is the one of its dimension check:
    [FindBestCropRegion] never returns an error, so the error that wraps its
    error is never produced. *)
Theorem CropToRatio_errors (c : SmartCropper) (img : Image) (targetRatio : float64)
    (e : error) :
  result (CropToRatio img targetRatio c) = Err e ->
  e = InvalidImageDimensions /\ (Dx (Bounds img) = 0 \/ Dy (Bounds img) = 0).
Proof.
  intros He.
  destruct (CropToRatio_cases c img targetRatio)
    as [[Hz E]|[(_ & _ & res & E)|(_ & _ & _ & E)]]; rewrite E in He; try done.
  by injection He as <-.
Qed.

Lemma CropToRatio_errors_witness :
  let img := Samples.blackImage 0 40 in
  result (CropToRatio img 1.5 New) = Err InvalidImageDimensions /\
  (InvalidImageDimensions = InvalidImageDimensions /\
   (Dx (Bounds img) = 0 \/ Dy (Bounds img) = 0)).
Proof.
  intros img.
  assert (E : result (CropToRatio img 1.5 New) = Err InvalidImageDimensions).
  { vm_compute. reflexivity. }
  split; [exact E|].
  exact (CropToRatio_errors New img 1.5 InvalidImageDimensions E).
Defined.

(** ** CropToSize *)

(** With upscaling disallowed, as in the default configuration, a target
    larger than the image on either axis is refused with the four sizes in
    the error, before anything is computed, and the cropper is not
    written. *)
Theorem CropToSize_upscaling (c : SmartCropper) (img : Image) (targetWidth targetHeight : Z) :
  AllowUpscaling (cropper.config c) = false ->
  Dx (Bounds img) < targetWidth \/ Dy (Bounds img) < targetHeight ->
  CropToSize img targetWidth targetHeight c
  = (Err (TargetLargerThanOriginal targetWidth targetHeight
            (Dx (Bounds img)) (Dy (Bounds img))), c, []).
Proof.
  intros Ha Hl. unfold CropToSize, mbind, method_bind, receiver. rewrite Ha.
  assert (E : (Dx (Bounds img) <? targetWidth) || (Dy (Bounds img) <? targetHeight) = true).
  { apply orb_true_iff. rewrite !Z.ltb_lt. done. }
  by rewrite E.
Qed.

Lemma CropToSize_upscaling_witness :
  let img := Samples.blackImage 60 40 in
  AllowUpscaling (cropper.config New) = false /\
  CropToSize img 30 50 New = (Err (TargetLargerThanOriginal 30 50 60 40), New, []).
Proof.
  intros img. split; [reflexivity|].
  apply (CropToSize_upscaling New img 30 50); [reflexivity|]. right. unfold Dx, Dy. simpl. lia.
Defined.

(** ** CropToMultipleRatios *)

Lemma cropEach_results img c : forall ratios acc results,
  result (cropEach img ratios acc c) = Ok results ->
  exists new, results = acc ++ new /\
    Forall2 (fun ratio res => result (CropToAspectRatio img ratio c) = Ok res) ratios new.
Proof.
  induction ratios as [|ratio ratios IH]; intros acc results.
  - intros [= <-]. exists []. by rewrite app_nil_r.
  - cbn [cropEach]. rewrite result_bind by apply readonly_CropToAspectRatio.
    destruct (result (CropToAspectRatio img ratio c)) as [res|e'|m] eqn:Er; try done.
    intros Hres. destruct (IH _ _ Hres) as (new & -> & Hall).
    exists (res :: new). rewrite <- app_assoc. split; [done|]. by constructor.
Qed.

Lemma cropEach_ok c img :
  0 < Dx (Bounds img) -> 0 < Dy (Bounds img) ->
  forall ratios acc, exists new,
    result (cropEach img ratios acc c) = Ok (acc ++ new) /\ length new = length ratios.
Proof.
  intros Hw Hh. induction ratios as [|ratio ratios IH]; intros acc.
  - exists []. by rewrite app_nil_r.
  - cbn [cropEach]. rewrite result_bind by apply readonly_CropToAspectRatio.
    destruct (CropToRatio_run c img
                (float64_of_int (Width ratio) / float64_of_int (Height ratio))%float Hw Hh)
      as (region & _ & Hr).
    unfold CropToAspectRatio at 1. rewrite Hr.
    match type of Hr with _ = (Ok ?r, _, _) => set (res := r) end.
    change (result (Ok res, c, [])) with (Ok res). cbv iota.
    destruct (IH (acc ++ [res])) as (new & Hn & Hl).
    exists (res :: new). rewrite <- app_assoc in Hn. split; [exact Hn|]. simpl. lia.
Qed.

(** A successful call returns one result for each ratio, in the order of
    the ratios, each the crop to its ratio. *)
Theorem CropToMultipleRatios_results (c : SmartCropper) (img : Image)
    (ratios : list AspectRatio) (results : list CropResult) :
  result (CropToMultipleRatios img ratios c) = Ok results ->
  length results = length ratios /\
  Forall2 (fun ratio res => result (CropToAspectRatio img ratio c) = Ok res) ratios results.
Proof.
  unfold CropToMultipleRatios. intros Hr.
  destruct (cropEach_results img c ratios [] results Hr) as (new & -> & Hall). simpl.
  split; [|done]. symmetry. by eapply Forall2_length.
Qed.

Lemma CropToMultipleRatios_results_witness :
  let img := Samples.patchImage 60 40 20 10 8 8 in
  let ratios := [Square; Widescreen; Story] in
  exists results,
    result (CropToMultipleRatios img ratios New) = Ok results /\
    length results = 3%nat /\
    Forall2 (fun ratio res => result (CropToAspectRatio img ratio New) = Ok res)
      ratios results.
Proof.
  intros img ratios.
  destruct (cropEach_ok New img ltac:(unfold Dx, Dy; simpl; lia) ltac:(unfold Dx, Dy; simpl; lia) ratios [])
    as (results & E & _).
  exists results. split; [exact E|].
  exact (CropToMultipleRatios_results New img ratios results E).
Defined.

(** A call fails only on an image without width or height, and then at the
    first ratio: the error names that ratio and wraps the error of the
    dimension check. *)
Theorem CropToMultipleRatios_error (c : SmartCropper) (img : Image)
    (ratios : list AspectRatio) (e : error) :
  result (CropToMultipleRatios img ratios c) = Err e ->
  (Dx (Bounds img) = 0 \/ Dy (Bounds img) = 0) /\
  exists ratio rest,
    ratios = ratio :: rest /\ e = FailedToCropTo (Name ratio) InvalidImageDimensions.
Proof.
  unfold CropToMultipleRatios. destruct ratios as [|ratio rest]; [done|].
  cbn [cropEach]. rewrite result_bind by apply readonly_CropToAspectRatio.
  unfold CropToAspectRatio at 1.
  destruct (CropToRatio_cases c img
              (float64_of_int (Width ratio) / float64_of_int (Height ratio))%float)
    as [[Hz E]|[(Hw & Hh & res & E)|(_ & _ & _ & E)]]; rewrite E.
  - intros [= <-]. split; [done|]. by exists ratio, rest.
  - intros He. destruct (cropEach_ok c img Hw Hh rest ([] ++ [res])) as (new & Hn & _).
    rewrite Hn in He. done.
  - done.
Qed.

Lemma CropToMultipleRatios_error_witness :
  let img := Samples.blackImage 60 0 in
  let ratios := [Portrait; Square] in
  result (CropToMultipleRatios img ratios New)
  = Err (FailedToCropTo "portrait" InvalidImageDimensions) /\
  ((Dx (Bounds img) = 0 \/ Dy (Bounds img) = 0) /\
   exists ratio rest,
     ratios = ratio :: rest /\
     FailedToCropTo "portrait" InvalidImageDimensions
     = FailedToCropTo (Name ratio) InvalidImageDimensions).
Proof.
  intros img ratios.
  assert (E : result (CropToMultipleRatios img ratios New)
              = Err (FailedToCropTo "portrait" InvalidImageDimensions)).
  { vm_compute. reflexivity. }
  split; [exact E|].
  exact (CropToMultipleRatios_error New img ratios _ E).
Defined.

(** ** GetOptimalCrops *)

Lemma collectCrops_step img ratio rest results c :
  result (collectCrops img (ratio :: rest) results c)
  = match result (CropToAspectRatio img ratio c) with
    | Ok res =>
        if PrimFloat.leb (QualityThreshold (cropper.config c)) (Quality res)
        then result (collectCrops img rest (<[Name ratio := res]> results) c)
        else result (collectCrops img rest results c)
    | Err _ => result (collectCrops img rest results c)
    | Panic m => Panic m
    end.
Proof.
  cbn [collectCrops]. rewrite result_bind by apply readonly_receiver.
  change (result (receiver c)) with c. cbv beta.
  rewrite result_bind by apply readonly_CropToAspectRatio.
  destruct (result (CropToAspectRatio img ratio c)) as [res|e|m]; try done.
  by destruct (PrimFloat.leb _ _).
Qed.

Lemma readonly_collectCrops img : forall ratios results,
  readonly (collectCrops img ratios results).
Proof.
  induction ratios as [|ratio ratios IH]; intros results; [apply readonly_ret|].
  cbn [collectCrops]. apply readonly_bind; [apply readonly_receiver|]. intros c.
  apply readonly_bind; [apply readonly_CropToAspectRatio|].
  intros [res|e|m]; try apply IH; [|apply readonly_ret].
  destruct (PrimFloat.leb _ _); apply IH.
Qed.

Lemma collectCrops_kept img c : forall ratios results,
  (forall e, result (collectCrops img ratios results c) <> Err e) /\
  (forall crops, result (collectCrops img ratios results c) = Ok crops ->
     forall name res, crops !! name = Some res ->
       results !! name = Some res \/
       exists ratio, ratio ∈ ratios /\ Name ratio = name /\
         result (CropToAspectRatio img ratio c) = Ok res /\
         PrimFloat.leb (QualityThreshold (cropper.config c)) (Quality res) = true).
Proof.
  induction ratios as [|ratio ratios IH]; intros results.
  - split; [done|]. intros crops [= <-] name res H. by left.
  - rewrite collectCrops_step.
    destruct (result (CropToAspectRatio img ratio c)) as [res0|e0|m0] eqn:Er.
    + destruct (PrimFloat.leb _ _) eqn:Eq.
      * destruct (IH (<[Name ratio := res0]> results)) as [IH1 IH2]. split; [done|].
        intros crops Hc name res Hl.
        destruct (IH2 _ Hc _ _ Hl) as [Hin|(r & Hin & Hn & Hr & Hq)].
        -- destruct (decide (Name ratio = name)) as [<-|Hne].
           ++ rewrite lookup_insert_eq in Hin. injection Hin as <-.
              right. exists ratio. split; [by left|done].
           ++ rewrite lookup_insert_ne in Hin by done. by left.
        -- right. exists r. split; [by right|done].
      * destruct (IH results) as [IH1 IH2]. split; [done|].
        intros crops Hc name res Hl.
        destruct (IH2 _ Hc _ _ Hl) as [Hin|(r & Hin & Hn & Hr & Hq)]; [by left|].
        right. exists r. split; [by right|done].
    + destruct (IH results) as [IH1 IH2]. split; [done|].
      intros crops Hc name res Hl.
      destruct (IH2 _ Hc _ _ Hl) as [Hin|(r & Hin & Hn & Hr & Hq)]; [by left|].
      right. exists r. split; [by right|done].
    + split; [done|]. intros crops H. discriminate H.
Qed.

Lemma collectCrops_invalid c img :
  Dx (Bounds img) = 0 \/ Dy (Bounds img) = 0 ->
  forall ratios results, result (collectCrops img ratios results c) = Ok results.
Proof.
  intros Hz. induction ratios as [|ratio ratios IH]; intros results; [done|].
  rewrite collectCrops_step. unfold CropToAspectRatio.
  rewrite CropToRatio_guard by done. apply IH.
Qed.

Lemma collectCrops_ok c img :
  0 < Dx (Bounds img) -> 0 < Dy (Bounds img) ->
  forall ratios results, exists crops, result (collectCrops img ratios results c) = Ok crops.
Proof.
  intros Hw Hh. induction ratios as [|ratio ratios IH]; intros results; [by eexists|].
  rewrite collectCrops_step. unfold CropToAspectRatio at 1.
  destruct (CropToRatio_run c img
              (float64_of_int (Width ratio) / float64_of_int (Height ratio))%float Hw Hh)
    as (region & _ & ->).
  match goal with |- context [result (Ok ?r, c, [])] =>
    change (result (Ok r, c, [])) with (Ok r) end. cbv iota.
  destruct (PrimFloat.leb _ _); apply IH.
Qed.

Lemma collectCrops_panic c img ratio rest results :
  Dx (Bounds img) <> 0 -> Dy (Bounds img) <> 0 ->
  Dx (Bounds img) < 0 \/ Dy (Bounds img) < 0 ->
  result (collectCrops img (ratio :: rest) results c) = Panic "makeslice: len out of range".
Proof.
  intros Hx Hy Hneg. rewrite collectCrops_step. unfold CropToAspectRatio.
  by rewrite CropToRatio_negative_dimension.
Qed.

(** The map while the ratios are gone through, when no two ratios share a
    name and no name is in the map yet. *)
Lemma collectCrops_exactly img c : forall ratios results crops,
  NoDup (Name <$> ratios) ->
  (forall ratio, ratio ∈ ratios -> results !! Name ratio = None) ->
  result (collectCrops img ratios results c) = Ok crops ->
  forall name res,
    crops !! name = Some res <->
    results !! name = Some res \/
    exists ratio, ratio ∈ ratios /\ Name ratio = name /\
      result (CropToAspectRatio img ratio c) = Ok res /\
      PrimFloat.leb (QualityThreshold (cropper.config c)) (Quality res) = true.
Proof.
  induction ratios as [|ratio ratios IH]; intros results crops Hnd Hfresh.
  - intros [= <-] name res. split; [by left|].
    intros [H|(r & Hr & _)]; [done|by apply elem_of_nil in Hr].
  - rewrite fmap_cons in Hnd. apply NoDup_cons in Hnd as [Hnotin Hnd].
    assert (Hrest : forall r, r ∈ ratios -> results !! Name r = None).
    { intros r Hr. apply Hfresh. by right. }
    assert (Hhead : results !! Name ratio = None) by (apply Hfresh; by left).
    assert (Hother : forall r, r ∈ ratios -> Name r <> Name ratio).
    { intros r Hr E. apply Hnotin. rewrite <- E. apply list_elem_of_fmap. by exists r. }
    rewrite collectCrops_step.
    destruct (result (CropToAspectRatio img ratio c)) as [res0|e0|m0] eqn:Er; [| |done].
    + destruct (PrimFloat.leb _ _) eqn:Eq.
      * intros Hc name res.
        rewrite (IH (<[Name ratio := res0]> results) crops Hnd) by
          (try done; intros r Hr; rewrite lookup_insert_ne by (symmetry; by apply Hother);
           by apply Hrest).
        split.
        -- intros [Hin|(r & Hr & Hn & Hres & Hq)].
           ++ destruct (decide (Name ratio = name)) as [<-|Hne].
              ** rewrite lookup_insert_eq in Hin. injection Hin as <-.
                 right. exists ratio. split; [by left|done].
              ** rewrite lookup_insert_ne in Hin by done. by left.
           ++ right. exists r. split; [by right|done].
        -- intros [Hin|(r & Hr & Hn & Hres & Hq)].
           ++ left. rewrite lookup_insert_ne; [done|]. intros <-. congruence.
           ++ apply elem_of_cons in Hr as [->|Hr].
              ** left. rewrite <- Hn, lookup_insert_eq. congruence.
              ** right. by exists r.
      * intros Hc name res. rewrite (IH results crops Hnd Hrest Hc). split.
        -- intros [Hin|(r & Hr & H)]; [by left|]. right. exists r. split; [by right|done].
        -- intros [Hin|(r & Hr & Hn & Hres & Hq)]; [by left|].
           apply elem_of_cons in Hr as [->|Hr]; [|right; by exists r].
           rewrite Er in Hres. injection Hres as <-. congruence.
    + intros Hc name res. rewrite (IH results crops Hnd Hrest Hc). split.
      * intros [Hin|(r & Hr & H)]; [by left|]. right. exists r. split; [by right|done].
      * intros [Hin|(r & Hr & Hn & Hres & Hq)]; [by left|].
        apply elem_of_cons in Hr as [->|Hr]; [|right; by exists r].
        rewrite Er in Hres. done.
Qed.

(** The map of [GetOptimalCrops] holds exactly the crops to the six common
    ratios whose quality is at or above the threshold of the configuration,
    each under the name of its ratio. *)
Theorem GetOptimalCrops_kept (c : SmartCropper) (img : Image)
    (crops : gmap string CropResult) :
  result (GetOptimalCrops img c) = Ok crops ->
  forall name res,
    crops !! name = Some res <->
    exists ratio, ratio ∈ CommonAspectRatios /\ Name ratio = name /\
      result (CropToAspectRatio img ratio c) = Ok res /\
      PrimFloat.leb (QualityThreshold (cropper.config c)) (Quality res) = true.
Proof.
  unfold GetOptimalCrops. intros Hc name res.
  rewrite (collectCrops_exactly img c CommonAspectRatios ∅ crops); [| |done|exact Hc].
  - rewrite lookup_empty. split; [by intros [?|?]|by right].
  - apply (bool_decide_unpack _). vm_compute. exact I.
Qed.

Lemma GetOptimalCrops_kept_witness :
  let img := Samples.blackImage 60 40 in
  exists crops res,
    result (GetOptimalCrops img New) = Ok crops /\
    result (CropToAspectRatio img Square New) = Ok res /\
    PrimFloat.leb (QualityThreshold (cropper.config New)) (Quality res) = true /\
    crops !! "square"%string = Some res /\
    forall name res,
      crops !! name = Some res <->
      exists ratio, ratio ∈ CommonAspectRatios /\ Name ratio = name /\
        result (CropToAspectRatio img ratio New) = Ok res /\
        PrimFloat.leb (QualityThreshold (cropper.config New)) (Quality res) = true.
Proof.
  intros img.
  destruct (collectCrops_ok New img ltac:(unfold Dx, Dy; simpl; lia)
              ltac:(unfold Dx, Dy; simpl; lia) CommonAspectRatios ∅) as [crops E].
  assert (Hs : exists res,
             result (CropToAspectRatio img Square New) = Ok res /\
             PrimFloat.leb (QualityThreshold (cropper.config New)) (Quality res) = true).
  { vm_compute. eexists. split; reflexivity. }
  destruct Hs as (res & Hres & Hq).
  pose proof (GetOptimalCrops_kept New img crops E) as H.
  exists crops, res. split; [exact E|]. split; [exact Hres|]. split; [exact Hq|].
  split; [|exact H].
  apply H. exists Square. split; [by left|]. split; [reflexivity|]. split; [exact Hres|exact Hq].
Defined.

(** [GetOptimalCrops] never returns an error, although its signature has
    one: the errors of the single crops are dropped.  It returns a map
    unless a dimension of the image is negative and the other one is not
    zero, where the first crop panics; and it does not write the cropper. *)
Theorem GetOptimalCrops_outcome (c : SmartCropper) (img : Image) :
  (forall e, result (GetOptimalCrops img c) <> Err e) /\
  ((exists crops, result (GetOptimalCrops img c) = Ok crops) <->
   Dx (Bounds img) = 0 \/ Dy (Bounds img) = 0 \/
   (0 < Dx (Bounds img) /\ 0 < Dy (Bounds img))) /\
  after (GetOptimalCrops img c) = c /\ during (GetOptimalCrops img c) = [].
Proof.
  unfold GetOptimalCrops. split; [apply collectCrops_kept|].
  split; [|apply readonly_collectCrops]. split.
  - intros [crops Hc].
    destruct (Z.eq_dec (Dx (Bounds img)) 0) as [|Hx]; [by left|].
    destruct (Z.eq_dec (Dy (Bounds img)) 0) as [|Hy]; [by right; left|].
    destruct (Z_lt_le_dec (Dx (Bounds img)) 0) as [Hx'|Hx'];
      [unfold CommonAspectRatios in Hc; by rewrite collectCrops_panic in Hc by tauto|].
    destruct (Z_lt_le_dec (Dy (Bounds img)) 0) as [Hy'|Hy'];
      [unfold CommonAspectRatios in Hc; by rewrite collectCrops_panic in Hc by tauto|].
    right; right. lia.
  - intros [Hz|[Hz|[Hw Hh]]].
    + rewrite collectCrops_invalid by (by left). by eexists.
    + rewrite collectCrops_invalid by (by right). by eexists.
    + by apply collectCrops_ok.
Qed.

(** For an image without width or height the map is empty and no error is
    returned: the six errors of the dimension check are dropped. *)
Theorem GetOptimalCrops_empty_image (c : SmartCropper) (img : Image) :
  Dx (Bounds img) = 0 \/ Dy (Bounds img) = 0 ->
  result (GetOptimalCrops img c) = Ok ∅.
Proof. intros Hz. by apply collectCrops_invalid. Qed.

Lemma GetOptimalCrops_empty_image_witness :
  result (GetOptimalCrops (Samples.whiteImage 0 480) New) = Ok ∅.
Proof.
  apply (GetOptimalCrops_empty_image New (Samples.whiteImage 0 480)). left. reflexivity.
Defined.

(** ** SmartResize *)

(** Whatever branch is taken, a successful resize has the target size. *)
Theorem SmartResize_size (c : SmartCropper) (img resized : Image) (targetWidth targetHeight : Z) :
  0 <= targetWidth -> 0 <= targetHeight ->
  result (SmartResize img targetWidth targetHeight c) = Ok resized ->
  Dx (Bounds resized) = targetWidth /\ Dy (Bounds resized) = targetHeight.
Proof.
  intros Hw Hh. unfold SmartResize.
  assert (Hsimple : forall i, Dx (Bounds (simpleResize i targetWidth targetHeight)) = targetWidth /\
                              Dy (Bounds (simpleResize i targetWidth targetHeight)) = targetHeight).
  { intros i. unfold simpleResize, resizedImage, Rect, Dx, Dy. simpl.
    destruct (Z.ltb_spec targetWidth 0); [lia|].
    destruct (Z.ltb_spec targetHeight 0); [lia|]. simpl. lia. }
  destruct ((Dx (Bounds img) =? targetWidth) && (Dy (Bounds img) =? targetHeight)) eqn:E.
  - apply andb_true_iff in E as [E1 E2]. apply Z.eqb_eq in E1, E2.
    intros [= <-]. done.
  - destruct (PrimFloat.ltb _ _).
    + intros [= <-]. apply Hsimple.
    + rewrite result_bind by apply readonly_CropToRatio.
      destruct (result (CropToRatio img _ c)) as [res|e|m]; try done.
      intros [= <-]. apply Hsimple.
Qed.

Lemma SmartResize_size_witness :
  let img := Samples.patchImage 60 40 20 10 8 8 in
  exists resized,
    result (SmartResize img 20 20 New) = Ok resized /\
    Dx (Bounds resized) = 20 /\ Dy (Bounds resized) = 20.
Proof.
  intros img.
  assert (E : exists resized, result (SmartResize img 20 20 New) = Ok resized).
  { unfold SmartResize.
    assert (E1 : (Dx (Bounds img) =? 20) && (Dy (Bounds img) =? 20) = false) by reflexivity.
    rewrite E1.
    assert (E2 : PrimFloat.ltb
                   (math_Abs (float64_of_int 20 / float64_of_int 20
                              - float64_of_int (Dx (Bounds img)) / float64_of_int (Dy (Bounds img))))
                   0.01 = false) by (vm_compute; reflexivity).
    rewrite E2. rewrite result_bind by apply readonly_CropToRatio.
    destruct (CropToRatio_run New img (float64_of_int 20 / float64_of_int 20)%float)
      as (region & _ & ->); [unfold Dx, Dy; simpl; lia|unfold Dx, Dy; simpl; lia|]. by eexists. }
  destruct E as [resized E]. exists resized. split; [exact E|].
  apply (SmartResize_size New img resized 20 20); [lia|lia|exact E].
Defined.

(** ** cropImageToRegion *)

(** For a region inside the image the cropped view has the size of the
    region, starts at the origin and shows the pixels of the region; off the
    view it is transparent black. *)
Theorem cropImageToRegion_view (img : Image) (region : vision.Region) (x y : Z) :
  let exact n := - 2 ^ 53 < n < 2 ^ 53 in
  let bounds := Bounds img in
  exact (MinX bounds) -> exact (MinY bounds) -> exact (MaxX bounds) -> exact (MaxY bounds) ->
  MinX bounds <= vision.X region -> MinY bounds <= vision.Y region ->
  0 <= vision.Width region -> 0 <= vision.Height region ->
  vision.X region + vision.Width region <= MaxX bounds ->
  vision.Y region + vision.Height region <= MaxY bounds ->
  let view := cropImageToRegion img region in
  Bounds view = mkRect 0 0 (vision.Width region) (vision.Height region) /\
  At view x y
  = if (0 <=? x) && (x <? vision.Width region) && (0 <=? y) && (y <? vision.Height region)
    then At img (x + vision.X region) (y + vision.Y region)
    else zeroColor.
Proof.
  intros exact bounds ? ? ? ? ? ? ? ? ? ? view. subst view. unfold cropImageToRegion.
  fold bounds. unfold exact in *.
  rewrite !int_Max_float64, !int_Min_float64 by lia.
  rewrite !Z.max_l, !Z.min_l by lia.
  unfold croppedImage, Rect, Dx, Dy, pointIn. simpl.
  destruct (Z.ltb_spec (vision.X region + vision.Width region) (vision.X region)); [lia|].
  destruct (Z.ltb_spec (vision.Y region + vision.Height region) (vision.Y region)); [lia|].
  simpl.
  replace (vision.X region + vision.Width region - vision.X region)
    with (vision.Width region) by lia.
  replace (vision.Y region + vision.Height region - vision.Y region)
    with (vision.Height region) by lia.
  destruct (Z.ltb_spec (vision.Width region) 0); [lia|].
  destruct (Z.ltb_spec (vision.Height region) 0); [lia|]. simpl. done.
Qed.

Lemma cropImageToRegion_view_witness :
  let img := Samples.patchImage 60 40 20 10 8 8 in
  let region := vision.mkRegion 20 0 40 40 1 in
  Bounds (cropImageToRegion img region) = mkRect 0 0 40 40 /\
  At (cropImageToRegion img region) 3 12
  = (if (0 <=? 3) && (3 <? 40) && (0 <=? 12) && (12 <? 40)
     then At img (3 + 20) (12 + 0) else zeroColor).
Proof.
  intros img region.
  apply (cropImageToRegion_view img region 3 12); unfold Dx, Dy; simpl; lia.
Defined.

(* ===================================================================== *)
(** * The facade: getBaseName                                               *)
(* ===================================================================== *)

Import imageanalyzer.


Lemma find_skip {A : Type} (f : A -> bool) (l1 l2 : list A) :
  Forall (fun x => f x = false) l1 -> List.find f (l1 ++ l2) = List.find f l2.
Proof. induction 1 as [|x l1 Hx _ IH]; simpl; [done|]. by rewrite Hx. Qed.

Lemma find_none_all {A : Type} (f : A -> bool) (l : list A) :
  Forall (fun x => f x = false) l -> List.find f l = None.
Proof. intros H. rewrite <- (app_nil_r l). by rewrite find_skip. Qed.

Lemma lastIndexWhere_none p s :
  Forall (fun b => p b = false) s -> lastIndexWhere p s = None.
Proof.
  intros H. unfold lastIndexWhere. apply find_none_all, Forall_forall. intros i _.
  destruct (s !! i) as [b|] eqn:E; [|done].
  rewrite Forall_forall in H. apply H. by eapply list_elem_of_lookup_2.
Qed.

Lemma lastIndexWhere_last p pre b post :
  p b = true -> Forall (fun b => p b = false) post ->
  lastIndexWhere p (pre ++ b :: post) = Some (length pre).
Proof.
  intros Hb Hpost. unfold lastIndexWhere.
  rewrite length_app. cbn [length].
  replace (length pre + S (length post))%nat with (S (length pre) + length post)%nat by lia.
  rewrite seq_app, reverse_app, find_skip.
  - rewrite seq_S, reverse_app. simpl. by rewrite list_lookup_middle, Hb.
  - apply Forall_forall. intros i Hi. apply elem_of_reverse, elem_of_seq in Hi.
    rewrite lookup_app_r by lia.
    destruct (i - length pre)%nat as [|j] eqn:Ej; [lia|]. simpl.
    destruct (post !! j) as [b'|] eqn:E; [|done].
    rewrite Forall_forall in Hpost. apply Hpost. by eapply list_elem_of_lookup_2.
Qed.

(** Every string either has no byte with [p] or splits at its last one. *)
Lemma split_at_last (p : ascii -> bool) (s : list ascii) :
  Forall (fun b => p b = false) s \/
  exists pre b post, s = pre ++ b :: post /\ p b = true /\ Forall (fun b => p b = false) post.
Proof.
  induction s as [|a s IH]; [by left|].
  destruct IH as [IH|(pre & b & post & -> & Hb & Hpost)].
  - destruct (p a) eqn:Ea.
    + right. by exists [], a, s.
    + left. by constructor.
  - right. by exists (a :: pre), b, post.
Qed.

Lemma drop_after_middle {A : Type} (pre post : list A) (b : A) :
  drop (S (length pre)) (pre ++ b :: post) = post.
Proof.
  rewrite cons_middle, app_assoc.
  replace (S (length pre)) with (length (pre ++ [b])) by (rewrite length_app; simpl; lia).
  apply drop_app_length.
Qed.

(** The base name is a part of the path, and it holds no path separator. *)
Theorem getBaseName_no_separator (filepath : list ascii) :
  (exists before after, filepath = before ++ getBaseName filepath ++ after) /\
  Forall (fun b => b <> "/"%char /\ b <> "092"%char) (getBaseName filepath).
Proof.
  assert (Hsep : forall b, isSeparator b = false -> b <> "/"%char /\ b <> "092"%char).
  { intros b Hb. unfold isSeparator in Hb. apply orb_false_iff in Hb as [H1 H2].
    apply Ascii.eqb_neq in H1, H2. done. }
  assert (Hbase : forall base, Forall (fun b => isSeparator b = false) base ->
            Forall (fun b => b <> "/"%char /\ b <> "092"%char)
              match lastIndexWhere isDot base with
              | Some i => take i base
              | None => base
              end).
  { intros base Hb. destruct (lastIndexWhere isDot base).
    - apply Forall_take. by eapply Forall_impl.
    - by eapply Forall_impl. }
  assert (Hpart : forall base : list ascii, exists after,
            base = match lastIndexWhere isDot base with
                   | Some i => take i base
                   | None => base
                   end ++ after).
  { intros base. destruct (lastIndexWhere isDot base) as [i|].
    - exists (drop i base). by rewrite take_drop.
    - exists []. by rewrite app_nil_r. }
  unfold getBaseName. cbv zeta.
  destruct (split_at_last isSeparator filepath) as [H|(pre & b & post & -> & Hb & Hpost)].
  - rewrite (lastIndexWhere_none isSeparator filepath) by done. split; [|by apply Hbase].
    destruct (Hpart filepath) as [after Ha]. by exists [], after.
  - rewrite (lastIndexWhere_last isSeparator pre b post) by done.
    rewrite drop_after_middle. split; [|by apply Hbase].
    destruct (Hpart post) as [after Ha]. exists (pre ++ [b]), after.
    rewrite <- Ha. by rewrite <- app_assoc.
Qed.

(** For a path that ends in a file name with an extension, the base name is
    the file name: what stands between the last separator, if any, and the
    last dot. *)
Theorem getBaseName_file (directory name extension : list ascii) (separator : ascii) :
  isSeparator separator = true ->
  Forall (fun b => isSeparator b = false) name ->
  Forall (fun b => isSeparator b = false /\ isDot b = false) extension ->
  getBaseName (directory ++ separator :: name ++ "."%char :: extension) = name /\
  getBaseName (name ++ "."%char :: extension) = name.
Proof.
  intros Hsep Hname Hext.
  assert (Hpost : Forall (fun b => isSeparator b = false) (name ++ "."%char :: extension)).
  { apply Forall_app; split; [done|]. constructor; [done|].
    eapply Forall_impl; [exact Hext|]. by intros b [? ?]. }
  assert (Hdot : lastIndexWhere isDot (name ++ "."%char :: extension) = Some (length name)).
  { apply lastIndexWhere_last; [done|]. eapply Forall_impl; [exact Hext|]. by intros b [? ?]. }
  unfold getBaseName. cbv zeta. split.
  - rewrite (lastIndexWhere_last isSeparator directory separator _) by done.
    rewrite drop_after_middle, Hdot.
    by rewrite take_app_length.
  - rewrite (lastIndexWhere_none isSeparator _ Hpost). rewrite Hdot.
    by rewrite take_app_length.
Qed.

Lemma getBaseName_file_witness :
  let directory := list_ascii_of_string "photos/2024.05" in
  let name := list_ascii_of_string "beach.final" in
  let extension := list_ascii_of_string "jpg" in
  isSeparator "092" = true /\
  Forall (fun b => isSeparator b = false) name /\
  Forall (fun b => isSeparator b = false /\ isDot b = false) extension /\
  getBaseName (directory ++ "092"%char :: name ++ "."%char :: extension) = name /\
  getBaseName (name ++ "."%char :: extension) = name.
Proof.
  intros directory name extension.
  assert (Hname : Forall (fun b => isSeparator b = false) name) by repeat constructor.
  assert (Hext : Forall (fun b => isSeparator b = false /\ isDot b = false) extension)
    by repeat constructor.
  split; [reflexivity|]. split; [exact Hname|]. split; [exact Hext|].
  exact (getBaseName_file directory name extension "092" eq_refl Hname Hext).
Defined.

(** Without a dot after the last separator only the directory is removed,
    and a name that starts with its only dot has an empty base name. *)
Theorem getBaseName_no_extension (directory name : list ascii) (separator : ascii) :
  isSeparator separator = true ->
  Forall (fun b => isSeparator b = false /\ isDot b = false) name ->
  getBaseName (directory ++ separator :: name) = name /\
  getBaseName (directory ++ separator :: "."%char :: name) = [].
Proof.
  intros Hsep Hname.
  assert (Hs : Forall (fun b => isSeparator b = false) name).
  { eapply Forall_impl; [exact Hname|]. by intros b [? ?]. }
  assert (Hd : Forall (fun b => isDot b = false) name).
  { eapply Forall_impl; [exact Hname|]. by intros b [? ?]. }
  unfold getBaseName. cbv zeta. split.
  - rewrite (lastIndexWhere_last isSeparator directory separator name) by done.
    rewrite drop_after_middle.
    by rewrite (lastIndexWhere_none isDot name).
  - rewrite (lastIndexWhere_last isSeparator directory separator ("."%char :: name))
      by (try done; by constructor).
    rewrite drop_after_middle.
    pose proof (lastIndexWhere_last isDot [] "."%char name eq_refl Hd) as E.
    cbn [app length] in E. by rewrite E.
Qed.

Lemma getBaseName_no_extension_witness :
  let directory := list_ascii_of_string "out.d/crops" in
  let name := list_ascii_of_string "README" in
  isSeparator "/" = true /\
  Forall (fun b => isSeparator b = false /\ isDot b = false) name /\
  getBaseName (directory ++ "/"%char :: name) = name /\
  getBaseName (directory ++ "/"%char :: "."%char :: name) = [].
Proof.
  intros directory name.
  assert (Hname : Forall (fun b => isSeparator b = false /\ isDot b = false) name).
  { repeat constructor. }
  split; [reflexivity|]. split; [exact Hname|].
  exact (getBaseName_no_extension directory name "/" eq_refl Hname).
Defined.

(* ===================================================================== *)
(** * The facade: AnalyzeImage, and validation before cropping              *)
(* ===================================================================== *)

Lemma withCropper_same ia : withCropper ia (imageanalyzer.cropper ia) = ia.
Proof. by destruct ia. Qed.

Lemma AnalyzeImage_receiver ia img : snd (AnalyzeImage ia img) = ia.
Proof.
  unfold AnalyzeImage.
  destruct (vision.DetectSubjects _ _) as [subjects|e|m]; try done.
  destruct (readonly_collectCrops img CommonAspectRatios ∅ (imageanalyzer.cropper ia)) as [Ha _].
  unfold GetOptimalCrops. rewrite Ha.
  destruct (result _); simpl; apply withCropper_same.
Qed.

Lemma collectCrops_returns c img :
  0 <= Dy (Bounds img) -> Dy (Bounds img) = 0 \/ 0 <= Dx (Bounds img) ->
  forall ratios results, exists crops, result (collectCrops img ratios results c) = Ok crops.
Proof.
  intros Hh Hw ratios results.
  destruct (Z.eq_dec (Dx (Bounds img)) 0) as [Ex|Ex];
    [rewrite collectCrops_invalid by (by left); by eexists|].
  destruct (Z.eq_dec (Dy (Bounds img)) 0) as [Ey|Ey];
    [rewrite collectCrops_invalid by (by right); by eexists|].
  apply collectCrops_ok; lia.
Qed.

Lemma AnalyzeImage_analysed ia img :
  0 <= Dy (Bounds img) -> Dy (Bounds img) = 0 \/ 0 <= Dx (Bounds img) ->
  exists res, fst (AnalyzeImage ia img) = Analysed res.
Proof.
  intros Hh Hw. unfold AnalyzeImage.
  destruct (DetectSubjects_ok (imageanalyzer.detector ia) img Hh Hw) as [subjects ->].
  destruct (collectCrops_returns (imageanalyzer.cropper ia) img Hh Hw CommonAspectRatios ∅)
    as [crops Hc].
  unfold GetOptimalCrops. rewrite Hc. by eexists.
Qed.

(** [AnalyzeImage] has no failing run: neither of its two error returns is
    ever taken.  It returns a result exactly for the images on which the
    allocation of the saliency map does not panic, and it leaves the analyzer,
    its cropper included, as it was. *)
Theorem AnalyzeImage_outcome (ia : ImageAnalyzer) (img : Image) :
  (forall e, fst (AnalyzeImage ia img) <> Failed e) /\
  ((exists res, fst (AnalyzeImage ia img) = Analysed res) <->
   0 <= Dy (Bounds img) /\ (Dy (Bounds img) = 0 \/ 0 <= Dx (Bounds img))) /\
  snd (AnalyzeImage ia img) = ia.
Proof.
  split; [|split; [|apply AnalyzeImage_receiver]].
  - intros e. unfold AnalyzeImage.
    destruct (DetectSubjects_cases (imageanalyzer.detector ia) img)
      as [[-> _]|[[subjects ->] _]]; [done|].
    destruct (collectCrops_kept img (imageanalyzer.cropper ia) CommonAspectRatios ∅) as [Hc _].
    unfold GetOptimalCrops.
    destruct (result (collectCrops img _ _ _)) as [crops|e'|m]; [done|by destruct (Hc e')|done].
  - split.
    + intros [res Hres]. unfold AnalyzeImage in Hres.
      destruct (DetectSubjects_cases (imageanalyzer.detector ia) img)
        as [[E _]|[_ H]]; [by rewrite E in Hres|done].
    + intros [Hh Hw]. by apply AnalyzeImage_analysed.
Qed.

(** What a result of [AnalyzeImage] holds: the size of the image, the at most
    ten subjects its own detector reports, and crops to common ratios, each
    under the name of its ratio and of a quality at or above the threshold
    of the cropper. *)
Theorem AnalyzeImage_result (ia : ImageAnalyzer) (img : Image) (res : AnalysisResult) :
  fst (AnalyzeImage ia img) = Analysed res ->
  analyzer.Width (Info res) = Dx (Bounds img) /\
  analyzer.Height (Info res) = Dy (Bounds img) /\
  analyzer.Area (Info res) = Dx (Bounds img) * Dy (Bounds img) /\
  vision.DetectSubjects (imageanalyzer.detector ia) img = Ok (Subjects res) /\
  (length (Subjects res) <= 10)%nat /\
  forall name crop, Crops res !! name = Some crop ->
    exists ratio, ratio ∈ CommonAspectRatios /\ Name ratio = name /\
      result (CropToAspectRatio img ratio (imageanalyzer.cropper ia)) = Ok crop /\
      PrimFloat.leb (QualityThreshold (cropper.config (imageanalyzer.cropper ia)))
        (Quality crop) = true.
Proof.
  unfold AnalyzeImage.
  destruct (vision.DetectSubjects _ _) as [subjects|e'|m] eqn:Hs; [|done|done].
  destruct (collectCrops_kept img (imageanalyzer.cropper ia) CommonAspectRatios ∅) as [_ Hc].
  unfold GetOptimalCrops.
  destruct (result (collectCrops img _ _ _)) as [crops|e'|m]; [|done|done].
  intros [= <-]. simpl. repeat split; try done.
  - rewrite DetectSubjects_take in Hs.
    destruct (vision.rankedRegions _ _) as [ranked| |]; simpl in Hs; try done.
    injection Hs as <-. rewrite length_take. unfold vision.maxRegions. lia.
  - intros name crop Hl. destruct (Hc _ eq_refl _ _ Hl) as [Hin|H]; [|done].
    by rewrite lookup_empty in Hin.
Qed.

Lemma AnalyzeImage_result_witness :
  let ia := imageanalyzer.New in
  let img := Samples.patchImage 60 40 20 10 8 8 in
  exists res,
    fst (AnalyzeImage ia img) = Analysed res /\
    analyzer.Width (Info res) = 60 /\
    analyzer.Height (Info res) = 40 /\
    analyzer.Area (Info res) = 60 * 40 /\
    vision.DetectSubjects (imageanalyzer.detector ia) img = Ok (Subjects res) /\
    (length (Subjects res) <= 10)%nat /\
    forall name crop, Crops res !! name = Some crop ->
      exists ratio, ratio ∈ CommonAspectRatios /\ Name ratio = name /\
        result (CropToAspectRatio img ratio (imageanalyzer.cropper ia)) = Ok crop /\
        PrimFloat.leb (QualityThreshold (cropper.config (imageanalyzer.cropper ia)))
          (Quality crop) = true.
Proof.
  intros ia img.
  destruct (AnalyzeImage_analysed ia img ltac:(unfold Dx, Dy; simpl; lia) ltac:(right; unfold Dx, Dy; simpl; lia))
    as [res E].
  exists res. split; [exact E|].
  exact (AnalyzeImage_result ia img res E).
Defined.

(** Under a positive minimum size, as in the default configuration, an
    image that passes [ValidateImage] is cropped to every requested ratio:
    the cropping step that follows validation in [ProcessImageFile] does not
    fail. *)
Theorem ValidateImage_CropToMultipleRatios (a : analyzer.ImageAnalyzer) (c : SmartCropper)
    (img : Image) (ratios : list AspectRatio) :
  0 < analyzer.MinImageSize (analyzer.config a) ->
  analyzer.ValidateImage a img = None ->
  exists results,
    result (CropToMultipleRatios img ratios c) = Ok results /\
    length results = length ratios.
Proof.
  intros Hmin Hv. unfold analyzer.ValidateImage in Hv.
  destruct (_ || _) eqn:E; [done|]. apply orb_false_iff in E as [E1 E2].
  apply Z.ltb_ge in E1, E2.
  destruct (cropEach_ok c img ltac:(lia) ltac:(lia) ratios []) as (new & Hn & Hl).
  by exists new.
Qed.

Lemma ValidateImage_CropToMultipleRatios_witness :
  let img := Samples.patchImage 120 100 20 10 8 8 in
  0 < analyzer.MinImageSize (analyzer.config analyzer.New) /\
  analyzer.ValidateImage analyzer.New img = None /\
  exists results,
    result (CropToMultipleRatios img CommonAspectRatios cropper.New) = Ok results /\
    length results = length CommonAspectRatios.
Proof.
  intros img.
  assert (Hmin : 0 < analyzer.MinImageSize (analyzer.config analyzer.New)) by reflexivity.
  assert (Hv : analyzer.ValidateImage analyzer.New img = None) by reflexivity.
  split; [exact Hmin|]. split; [exact Hv|].
  exact (ValidateImage_CropToMultipleRatios analyzer.New cropper.New img CommonAspectRatios Hmin Hv).
Defined.
